(** * Chikwex-Infra: the order, cart and user request handlers

    A shallow embedding of the Express request handlers of
    [microservices/user-service/server.js] (which holds both the user
    service and the order service) and of
    [microservices/cart-service/server.js], together with the queue and
    retry policies configured in [ChikwexServerlessAssign3].

    Conventions of the embedding:
    - a parsed JSON request body is a [jsval]; a number of a body is given
      by its value, a rational; the order total is computed on IEEE-754
      binary64 numbers ([IEEE]), as the handler computes it; the sums of
      cart quantities and of the cart page are taken on the rationals, so
      what is stated of them is stated up to the rounding of doubles;
    - the in-memory stores ([orders], [users], [carts]) are threaded through
      the handlers explicitly, a handler maps a store to a new store and a
      response;
    - a handler body runs in the small monad [M]: it continues with a value,
      replies early ([return res.status(..).json(..)]) or throws;
    - reads of the clock, of [uuidv4()] and of the bcrypt salt are inputs of
      the handler;
    - an [async] handler runs in pieces, one up to each [await], and pieces
      of other handlers can run in between: the registration, which reads
      the store before its [await] and writes it after, is modelled piece
      by piece ([UserService.step]);
    - logging and Prometheus counters are write-only sinks and are left out. *)

From Stdlib Require Import QArith Qround Qpower ZArith Lia.
From Stdlib Require Import Floats.SpecFloat.
From stdpp Require Import gmap strings list fin_maps.

Set Warnings "-register-all".

Local Open Scope string_scope.

(** ** JavaScript values as the handlers see them *)

Module JS.

Inductive jsval : Type :=
| JUndefined
| JNull
| JBool (b : bool)
| JNum (q : Q)
| JStr (s : string)
| JArr (elems : list jsval)
| JObj (fields : list (string * jsval)).

(** [!v] is [negb (truthy v)]. *)
Definition truthy (v : jsval) : bool :=
  match v with
  | JUndefined | JNull => false
  | JBool b => b
  | JNum q => negb (Qeq_bool q 0)
  | JStr s => negb (String.eqb s "")
  | JArr _ | JObj _ => true
  end.

(** [v == null] *)
Definition nullish (v : jsval) : bool :=
  match v with
  | JUndefined | JNull => true
  | _ => false
  end.

(** The value of property [k] of an object given by the list of its
    properties, each key listed once; [undefined] when there is none. *)
Fixpoint assoc (k : string) (fields : list (string * jsval)) : jsval :=
  match fields with
  | [] => JUndefined
  | (k', v) :: rest => if String.eqb k k' then v else assoc k rest
  end.

(** Whether the object has a property of its own under the key [k]. *)
Definition has_own (k : string) (fields : list (string * jsval)) : bool :=
  existsb (fun kv => String.eqb k (fst kv)) fields.

(** [v.k]: [None] stands for the TypeError raised on [null] and
    [undefined]; a property that is absent reads as [undefined]. *)
Definition get_prop (v : jsval) (k : string) : option jsval :=
  match v with
  | JUndefined | JNull => None
  | JObj fields => Some (assoc k fields)
  | _ => Some JUndefined
  end.

(** [a === b] between a stored value and a value of the current request:
    primitives are compared by value, objects and arrays by identity, and
    two bodies parsed from two requests never share an object. *)
Definition strict_eq (a b : jsval) : bool :=
  match a, b with
  | JUndefined, JUndefined => true
  | JNull, JNull => true
  | JBool x, JBool y => Bool.eqb x y
  | JNum x, JNum y => Qeq_bool x y
  | JStr x, JStr y => String.eqb x y
  | _, _ => false
  end.

(** [Number.isInteger] on a rational. *)
Definition is_integer (q : Q) : bool := Qeq_bool (inject_Z (Qfloor q)) q.

Definition Qltb (a b : Q) : bool := negb (Qle_bool b a).

End JS.

Import JS.

(** ** IEEE-754 binary64 numbers

    The arithmetic of JavaScript numbers, on the executable specification
    of binary floating point of the standard library ([SpecFloat]) at
    precision 53 and maximal exponent 1024: [fadd], [fmul] and [fdiv] are
    [+], [*] and [/] of two numbers, rounded to nearest, ties to even. *)

Module IEEE.

Definition prec : Z := 53.
Definition emax : Z := 1024.

Definition fadd : spec_float -> spec_float -> spec_float := SFadd prec emax.
Definition fmul : spec_float -> spec_float -> spec_float := SFmul prec emax.
Definition fdiv : spec_float -> spec_float -> spec_float := SFdiv prec emax.

(** The literal [0]. *)
Definition zero : spec_float := S754_zero false.

(** The number that is the integer [z], with mantissa [|z|] and exponent
    zero. *)
Definition of_Z (z : Z) : spec_float :=
  match z with
  | Z0 => S754_zero false
  | Zpos p => S754_finite false p 0
  | Zneg p => S754_finite true p 0
  end.

(** The double that stands for the number of value [q] in a parsed body:
    the quotient of numerator and denominator rounded to nearest, which is
    [q] itself when [q] is the value of a double. *)
Definition of_Q (q : Q) : spec_float := fdiv (of_Z (Qnum q)) (of_Z (Zpos (Qden q))).

(** The value of a finite double; [None] for the infinities and [NaN]. *)
Definition value (x : spec_float) : option Q :=
  match x with
  | S754_zero _ => Some 0%Q
  | S754_finite s m e => Some (inject_Z (if s then Zneg m else Zpos m) * 2 ^ e)%Q
  | S754_infinity _ | S754_nan => None
  end.

(** [Math.round(x)]: the integer nearest to [x], a tie going towards plus
    infinity, that is the floor of [x + 1/2] taken exactly; a zero keeps
    the sign of [x]; the infinities, [NaN] and the doubles without a
    fractional part are returned as they are. *)
Definition Math_round (x : spec_float) : spec_float :=
  match x with
  | S754_finite s m (Zneg d) =>
      let k := ((2 * (if s then Zneg m else Zpos m) + 2 ^ Zpos d) / 2 ^ (Zpos d + 1))%Z in
      match k with
      | Z0 => S754_zero s
      | _ => of_Z k
      end
  | _ => x
  end.

End IEEE.

(** ** Responses and the handler monad *)

Inductive M (R A : Type) : Type :=
| Continue (a : A)
| Reply (r : R)
| Throw (msg : string).

Arguments Continue {R A} a.
Arguments Reply {R A} r.
Arguments Throw {R A} msg.

Definition bind {R A B} (m : M R A) (k : A -> M R B) : M R B :=
  match m with
  | Continue a => k a
  | Reply r => Reply r
  | Throw e => Throw e
  end.

Notation "x <- m ;; k" := (bind m (fun x => k))
  (at level 62, m at next level, right associativity).
Notation "'guard' c 'else_reply' r ;; k" :=
  (if c then k else Reply r)
  (at level 62, c at next level, r at next level, right associativity).

(** [v.k] inside a handler. *)
Definition prop {R} (v : jsval) (k : string) : M R jsval :=
  match get_prop v k with
  | Some x => Continue x
  | None => Throw ("Cannot read properties of null or undefined (reading '" ++ k ++ "')")
  end.

Definition dquote : string := String (Ascii.ascii_of_nat 34) EmptyString.

(** ** The order service ([user-service/server.js], second half) *)

Module OrderService.

Record order : Type := mkOrder {
  orderId : string;
  userId : jsval;
  items : list jsval;
  shippingAddress : jsval;
  total : spec_float;
  status : string;
  createdAt : string;
  updatedAt : string
}.

Inductive body : Type :=
| ErrorBody (error : string)
| OrderBody (o : order)
| OrdersBody (os : list order).

Record response : Type := mkResponse { code : Z; payload : body }.

Definition json_error (c : Z) (msg : string) : response :=
  {| code := c; payload := ErrorBody msg |}.

Definition VALID_STATUSES : list string :=
  ["pending"; "confirmed"; "processing"; "shipped"; "delivered"; "cancelled"].

(** [VALID_STATUSES.includes(v)] *)
Definition includes_status (v : jsval) : option string :=
  match v with
  | JStr s => if bool_decide (s ∈ VALID_STATUSES) then Some s else None
  | _ => None
  end.

(** [typeof price !== 'number' || price < 0] *)
Definition price_rejected (price : jsval) : bool :=
  match price with
  | JNum p => Qltb p 0
  | _ => true
  end.

(** [!Number.isInteger(quantity) || quantity < 1] *)
Definition quantity_rejected (quantity : jsval) : bool :=
  match quantity with
  | JNum q => negb (is_integer q) || Qltb q 1
  | _ => true
  end.

(** The body of the [for (const item of items)] loop of [POST /api/orders]. *)
Definition validate_item (item : jsval) : M response unit :=
  productId <- prop item "productId" ;;
  guard truthy productId
    else_reply json_error 400 "Each item must have productId, name, price, and quantity" ;;
  name <- prop item "name" ;;
  guard truthy name
    else_reply json_error 400 "Each item must have productId, name, price, and quantity" ;;
  price <- prop item "price" ;;
  guard negb (nullish price)
    else_reply json_error 400 "Each item must have productId, name, price, and quantity" ;;
  quantity <- prop item "quantity" ;;
  guard negb (nullish quantity)
    else_reply json_error 400 "Each item must have productId, name, price, and quantity" ;;
  guard negb (price_rejected price)
    else_reply json_error 400 "Item price must be a non-negative number" ;;
  guard negb (quantity_rejected quantity)
    else_reply json_error 400 "Item quantity must be a positive integer" ;;
  Continue tt.

Fixpoint validate_items (its : list jsval) : M response unit :=
  match its with
  | [] => Continue tt
  | item :: rest => _ <- validate_item item ;; validate_items rest
  end.

(** [item.price * item.quantity]; after [validate_items] both are numbers,
    any other value is reported as a throw and is never reached
    (see [validate_items_amounts]). *)
Definition item_amount (item : jsval) : M response spec_float :=
  price <- prop item "price" ;;
  quantity <- prop item "quantity" ;;
  match price, quantity with
  | JNum p, JNum q => Continue (IEEE.fmul (IEEE.of_Q p) (IEEE.of_Q q))
  | _, _ => Throw "item amount is not a number"
  end.

(** [items.reduce((sum, item) => sum + item.price * item.quantity, 0)] *)
Fixpoint reduce_total (its : list jsval) (sum : spec_float) : M response spec_float :=
  match its with
  | [] => Continue sum
  | item :: rest => a <- item_amount item ;; reduce_total rest (IEEE.fadd sum a)
  end.

(** [Math.round(total * 100) / 100] *)
Definition round_cents (t : spec_float) : spec_float :=
  IEEE.fdiv (IEEE.Math_round (IEEE.fmul t (IEEE.of_Q 100))) (IEEE.of_Q 100).

(** [const { userId, items, shippingAddress } = req.body] and the like. *)
Definition destructure (req_body : jsval) (k : string) : M response jsval :=
  prop req_body k.

(** The clock and identifier readings of one request. *)
Record env : Type := mkEnv {
  uuidv4 : string;
  now_created : string;
  now_updated : string
}.

Definition create_body (e : env) (req_body : jsval) (orders : list order)
  : M response (list order * response) :=
  userId <- destructure req_body "userId" ;;
  its <- destructure req_body "items" ;;
  shippingAddress <- destructure req_body "shippingAddress" ;;
  guard truthy userId else_reply json_error 400 "userId is required" ;;
  match its with
  | JArr (item :: rest) =>
      guard truthy shippingAddress
        else_reply json_error 400 "shippingAddress is required" ;;
      _ <- validate_items (item :: rest) ;;
      t <- reduce_total (item :: rest) IEEE.zero ;;
      let o := {| orderId := uuidv4 e;
                  userId := userId;
                  items := item :: rest;
                  shippingAddress := shippingAddress;
                  total := round_cents t;
                  status := "pending";
                  createdAt := now_created e;
                  updatedAt := now_updated e |} in
      Continue ((orders ++ [o])%list, {| code := 201; payload := OrderBody o |})
  | _ => Reply (json_error 400 "items must be a non-empty array")
  end.

(** [try { ... } catch (err) { res.status(500).json(...) }] around a handler
    body: an early reply and a throw both leave the store as it was. *)
Definition try_catch (orders : list order) (m : M response (list order * response))
  : list order * response :=
  match m with
  | Continue r => r
  | Reply r => (orders, r)
  | Throw _ => (orders, json_error 500 "Internal server error")
  end.

(** [POST /api/orders] *)
Definition post_order (e : env) (req_body : jsval) (orders : list order)
  : list order * response :=
  try_catch orders (create_body e req_body orders).

(** [orders.find((o) => o.orderId === orderId)], with the position found. *)
Definition find_order (oid : string) (orders : list order) : option (nat * order) :=
  list_find (fun o => orderId o = oid) orders.

(** [GET /api/orders/:orderId] *)
Definition get_order (oid : string) (orders : list order) : list order * response :=
  match find_order oid orders with
  | None => (orders, json_error 404 "Order not found")
  | Some (_, o) => (orders, {| code := 200; payload := OrderBody o |})
  end.

(** [GET /api/orders/user/:userId] *)
Definition get_user_orders (uid : string) (orders : list order) : list order * response :=
  (orders,
   {| code := 200;
      payload := OrdersBody (filter (fun o => strict_eq (userId o) (JStr uid) = true) orders) |}).

Definition set_status (o : order) (st now : string) : order :=
  {| orderId := orderId o;
     userId := userId o;
     items := items o;
     shippingAddress := shippingAddress o;
     total := total o;
     status := st;
     createdAt := createdAt o;
     updatedAt := now |}.

Definition update_body (now oid : string) (req_body : jsval) (orders : list order)
  : M response (list order * response) :=
  st <- destructure req_body "status" ;;
  guard truthy st else_reply json_error 400 "status is required" ;;
  match includes_status st with
  | None =>
      Reply (json_error 400
        ("Invalid status. Must be one of: " ++ String.concat ", " VALID_STATUSES))
  | Some s =>
      match find_order oid orders with
      | None => Reply (json_error 404 "Order not found")
      | Some (i, o) =>
          let o' := set_status o s now in
          Continue (<[i := o']> orders, {| code := 200; payload := OrderBody o' |})
      end
  end.

(** [PUT /api/orders/:orderId/status] *)
Definition put_status (now oid : string) (req_body : jsval) (orders : list order)
  : list order * response :=
  try_catch orders (update_body now oid req_body orders).

Definition cancellable (st : string) : bool :=
  String.eqb st "pending" || String.eqb st "confirmed".

Definition cancel_body (now oid : string) (orders : list order)
  : M response (list order * response) :=
  match find_order oid orders with
  | None => Reply (json_error 404 "Order not found")
  | Some (i, o) =>
      guard cancellable (status o)
        else_reply json_error 400
          ("Cannot cancel order with status " ++ dquote ++ status o ++ dquote
           ++ ". Only pending or confirmed orders can be cancelled.") ;;
      let o' := set_status o "cancelled" now in
      Continue (<[i := o']> orders, {| code := 200; payload := OrderBody o' |})
  end.

(** [POST /api/orders/:orderId/cancel] *)
Definition post_cancel (now oid : string) (orders : list order)
  : list order * response :=
  try_catch orders (cancel_body now oid orders).

(** The exposed operations of the order service. *)
Inductive request : Type :=
| Create (e : env) (req_body : jsval)
| GetOrder (oid : string)
| GetUserOrders (uid : string)
| UpdateStatus (now oid : string) (req_body : jsval)
| Cancel (now oid : string).

Definition handle (rq : request) (orders : list order) : list order * response :=
  match rq with
  | Create e b => post_order e b orders
  | GetOrder oid => get_order oid orders
  | GetUserOrders uid => get_user_orders uid orders
  | UpdateStatus now oid b => put_status now oid b orders
  | Cancel now oid => post_cancel now oid orders
  end.

(** The store after a sequence of requests. *)
Fixpoint run (rqs : list request) (orders : list order) : list order :=
  match rqs with
  | [] => orders
  | rq :: rest => run rest (fst (handle rq orders))
  end.

End OrderService.

(** ** The cart service ([cart-service/server.js]) *)

Module CartService.

(** A JavaScript number that a conversion has produced. *)
Inductive number : Type :=
| Fin (q : Q)
| NaN.

Definition num_add (a b : number) : number :=
  match a, b with
  | Fin x, Fin y => Fin (x + y)%Q
  | _, _ => NaN
  end.

(** What a cart entry's [quantity] can hold: [Number(..)] stores a number,
    [+=] can leave a string behind. *)
Inductive rtval : Type :=
| RNum (n : number)
| RStr (s : string).

Record cart_item : Type := mkItem {
  productId : jsval;
  name : jsval;
  price : number;
  quantity : rtval
}.

Inductive body : Type :=
| ErrorBody (error : string)
| CartBody (userId : string) (items : list cart_item).

Record response : Type := mkResponse { code : Z; payload : body }.

Definition json_error (c : Z) (msg : string) : response :=
  {| code := c; payload := ErrorBody msg |}.

Section Runtime.

(** The two conversions of the JavaScript runtime between numbers and
    their text are taken as given. *)
Variable StringToNumber : string -> number.
Variable NumberToString : number -> string.

(** [String(v)], and the text that [+] and [Number] make of an array or
    an object; [None] stands for the TypeError "Cannot convert object to
    primitive value". An object of a parsed body inherits [toString] and
    [valueOf] from [Object.prototype] unless it has a property of its own
    under that key, which then holds a value that cannot be called:
    [valueOf] never yields a primitive, so the conversion rests on
    [toString], gives [[object Object]] when it is inherited and throws
    when it is shadowed. An array is joined with commas, [null] and
    [undefined] elements giving the empty text. *)
Fixpoint ToString (v : jsval) : option string :=
  match v with
  | JUndefined => Some "undefined"
  | JNull => Some "null"
  | JBool b => Some (if b then "true" else "false")
  | JNum q => Some (NumberToString (Fin q))
  | JStr s => Some s
  | JArr elems =>
      String.concat "," <$>
        (fix join (l : list jsval) : option (list string) :=
           match l with
           | [] => Some []
           | x :: rest =>
               match (if nullish x then Some "" else ToString x), join rest with
               | Some s, Some ss => Some (s :: ss)
               | _, _ => None
               end
           end) elems
  | JObj fields => if has_own "toString" fields then None else Some "[object Object]"
  end.

(** [Number(v)]; [None] stands for the TypeError of [ToString]. *)
Definition Number (v : jsval) : option number :=
  match v with
  | JUndefined => Some NaN
  | JNull => Some (Fin 0)
  | JBool b => Some (Fin (if b then 1 else 0))
  | JNum q => Some (Fin q)
  | JStr s => Some (StringToNumber s)
  | JArr _ | JObj _ => StringToNumber <$> ToString v
  end.

(** Whether [+] treats the operand as text once it is made primitive. *)
Definition string_like (v : jsval) : bool :=
  match v with
  | JStr _ | JArr _ | JObj _ => true
  | _ => false
  end.

(** [a + b] for a stored quantity [a] and a request value [b]: text
    concatenation as soon as one side is text, numeric addition otherwise;
    [None] when making [b] primitive throws. *)
Definition js_plus (a : rtval) (b : jsval) : option rtval :=
  match a with
  | RStr sa => (fun sb => RStr (sa ++ sb)) <$> ToString b
  | RNum na =>
      if string_like b then (fun sb => RStr (NumberToString na ++ sb)) <$> ToString b
      else (fun nb => RNum (num_add na nb)) <$> Number b
  end.

(** A conversion inside a handler. *)
Definition convert {A} (r : option A) : M response A :=
  match r with
  | Some x => Continue x
  | None => Throw "Cannot convert object to primitive value"
  end.

(** [getCart(userId)]: creates the empty cart on first use. *)
Definition getCart (userId : string) (carts : gmap string (list cart_item))
  : gmap string (list cart_item) * list cart_item :=
  match carts !! userId with
  | Some its => (carts, its)
  | None => (<[userId := []]> carts, [])
  end.

(** [items.find((item) => item.productId === pid)], with the position. *)
Definition find_item (pid : jsval) (its : list cart_item) : option (nat * cart_item) :=
  list_find (fun it => strict_eq (productId it) pid = true) its.

Definition set_quantity (it : cart_item) (q : rtval) : cart_item :=
  {| productId := productId it; name := name it; price := price it; quantity := q |}.

(** The handlers of this service have no [try]: a throw reaches the global
    error handler, which replies 500 and leaves the store as the handler
    had it when it threw. *)
Definition error_handler (carts : gmap string (list cart_item))
    (m : M response (gmap string (list cart_item) * response))
  : gmap string (list cart_item) * response :=
  match m with
  | Continue r => r
  | Reply r => (carts, r)
  | Throw _ => (carts, json_error 500 "Internal server error")
  end.

(** The part of [POST /api/cart/:userId/items] that follows [getCart]:
    [carts1] is the store with the cart of the user in it. *)
Definition add_to_cart (userId : string) (pid nm pr qty : jsval)
    (carts1 : gmap string (list cart_item)) (its : list cart_item)
  : M response (gmap string (list cart_item) * response) :=
  match find_item pid its with
  | Some (i, existing) =>
      q <- convert (js_plus (quantity existing) qty) ;;
      let its' := <[i := set_quantity existing q]> its in
      Continue (<[userId := its']> carts1, {| code := 200; payload := CartBody userId its' |})
  | None =>
      p <- convert (Number pr) ;;
      q <- convert (Number qty) ;;
      let its' := (its ++ [{| productId := pid; name := nm;
                              price := p; quantity := RNum q |}])%list in
      Continue (<[userId := its']> carts1, {| code := 201; payload := CartBody userId its' |})
  end.

Definition add_body (userId : string) (req_body : jsval)
    (carts : gmap string (list cart_item))
  : M response (gmap string (list cart_item) * response) :=
  pid <- prop req_body "productId" ;;
  nm <- prop req_body "name" ;;
  pr <- prop req_body "price" ;;
  qty <- prop req_body "quantity" ;;
  guard truthy pid && truthy nm && negb (nullish pr) && negb (nullish qty)
    else_reply json_error 400 "Missing required fields: productId, name, price, quantity" ;;
  let '(carts1, its) := getCart userId carts in
  Continue (error_handler carts1 (add_to_cart userId pid nm pr qty carts1 its)).

(** [POST /api/cart/:userId/items] *)
Definition post_item (userId : string) (req_body : jsval)
    (carts : gmap string (list cart_item)) :=
  error_handler carts (add_body userId req_body carts).

(** The part of [PUT /api/cart/:userId/items/:productId] that follows
    [getCart]. *)
Definition update_in_cart (userId pid : string) (qty : jsval)
    (carts1 : gmap string (list cart_item)) (its : list cart_item)
  : M response (gmap string (list cart_item) * response) :=
  match find_item (JStr pid) its with
  | None => Continue (carts1, json_error 404 "Item not found in cart")
  | Some (i, it) =>
      q <- convert (Number qty) ;;
      let its' := <[i := set_quantity it (RNum q)]> its in
      Continue (<[userId := its']> carts1, {| code := 200; payload := CartBody userId its' |})
  end.

Definition update_body (userId pid : string) (req_body : jsval)
    (carts : gmap string (list cart_item))
  : M response (gmap string (list cart_item) * response) :=
  qty <- prop req_body "quantity" ;;
  guard negb (nullish qty) else_reply json_error 400 "Missing required field: quantity" ;;
  let '(carts1, its) := getCart userId carts in
  Continue (error_handler carts1 (update_in_cart userId pid qty carts1 its)).

(** [PUT /api/cart/:userId/items/:productId] *)
Definition put_item (userId pid : string) (req_body : jsval)
    (carts : gmap string (list cart_item)) :=
  error_handler carts (update_body userId pid req_body carts).

(** [DELETE /api/cart/:userId/items/:productId]; [splice(index, 1)] *)
Definition delete_item (userId pid : string) (carts : gmap string (list cart_item))
  : gmap string (list cart_item) * response :=
  let '(carts1, its) := getCart userId carts in
  match find_item (JStr pid) its with
  | None => (carts1, json_error 404 "Item not found in cart")
  | Some (i, _) =>
      let its' := delete i its in
      (<[userId := its']> carts1, {| code := 200; payload := CartBody userId its' |})
  end.

(** [DELETE /api/cart/:userId] *)
Definition clear_cart (userId : string) (carts : gmap string (list cart_item))
  : gmap string (list cart_item) * response :=
  (delete userId carts, {| code := 200; payload := CartBody userId [] |}).

(** [GET /api/cart/:userId] *)
Definition get_cart (userId : string) (carts : gmap string (list cart_item))
  : gmap string (list cart_item) * response :=
  let '(carts1, its) := getCart userId carts in
  (carts1, {| code := 200; payload := CartBody userId its |}).

Inductive request : Type :=
| AddItem (userId : string) (req_body : jsval)
| UpdateItem (userId pid : string) (req_body : jsval)
| RemoveItem (userId pid : string)
| Clear (userId : string)
| GetCart (userId : string).

Definition handle (rq : request) (carts : gmap string (list cart_item))
  : gmap string (list cart_item) * response :=
  match rq with
  | AddItem u b => post_item u b carts
  | UpdateItem u p b => put_item u p b carts
  | RemoveItem u p => delete_item u p carts
  | Clear u => clear_cart u carts
  | GetCart u => get_cart u carts
  end.

Fixpoint run (rqs : list request) (carts : gmap string (list cart_item))
  : gmap string (list cart_item) :=
  match rqs with
  | [] => carts
  | rq :: rest => run rest (fst (handle rq carts))
  end.

End Runtime.

(** At most one entry per product identifier, in the sense of [===]. *)
Definition unique_products (its : list cart_item) : Prop :=
  forall i j a b,
    its !! i = Some a -> its !! j = Some b ->
    strict_eq (productId a) (productId b) = true -> i = j.

Definition carts_ok (carts : gmap string (list cart_item)) : Prop :=
  forall u its, carts !! u = Some its -> unique_products its.

End CartService.

(** ** The user service ([user-service/server.js], first half) *)

Module UserService.

Record user : Type := mkUser {
  id : Z;
  username : jsval;
  email : jsval;
  password : string;
  createdAt : string
}.

(** [const { password, ...safeUser } = user] *)
Record safe_user : Type := mkSafe {
  safe_id : Z;
  safe_username : jsval;
  safe_email : jsval;
  safe_createdAt : string
}.

Definition safeUser (u : user) : safe_user :=
  {| safe_id := id u;
     safe_username := username u;
     safe_email := email u;
     safe_createdAt := createdAt u |}.

(** The user object, property by property, in the order the handler
    writes them, and the object that [res.json] is given for a
    [safe_user]. *)
Definition user_object (u : user) : list (string * jsval) :=
  [("id", JNum (inject_Z (id u))); ("username", username u); ("email", email u);
   ("password", JStr (password u)); ("createdAt", JStr (createdAt u))].

Definition safe_object (su : safe_user) : list (string * jsval) :=
  [("id", JNum (inject_Z (safe_id su))); ("username", safe_username su);
   ("email", safe_email su); ("createdAt", JStr (safe_createdAt su))].

(** [const { k: _, ...rest } = obj]: the properties of [obj] but [k]. *)
Definition rest_without (k : string) (fields : list (string * jsval))
  : list (string * jsval) :=
  List.filter (fun kv => negb (String.eqb (fst kv) k)) fields.

Inductive body : Type :=
| ErrorBody (error : string)
| UserBody (u : safe_user)
| UsersBody (us : list safe_user).

Record response : Type := mkResponse { code : Z; payload : body }.

Definition json_error (c : Z) (msg : string) : response :=
  {| code := c; payload := ErrorBody msg |}.

(** The module-level [users] array and [nextId] counter. *)
Record state : Type := mkState { users : list user; nextId : Z }.

(** The salt and clock readings of one registration. *)
Record env : Type := mkEnv { salt : string; now : string }.

(** The reply of the global error handler to a throw with message [msg]. *)
Definition error_reply (msg : string) : response :=
  json_error 500 (if String.eqb msg "" then "Internal server error" else msg).

(** [POST /api/users/register] is an [async] handler. It runs in one piece
    up to [await bcrypt.hash(password, 10)]; what follows the [await] runs
    in a second piece, once the hash has settled, and other handlers may
    have run in between. *)

(** How a piece of a handler ends: with the reply sent, or suspended at
    the [await] on the hash of [pwd], [usr] and [eml] being the values the
    second piece goes on with. *)
Inductive output : Type :=
| Sent (r : response)
| Suspended (usr eml pwd : jsval).

(** The checks that come before the [await]. *)
Definition register_checks (req_body : jsval) (st : state)
  : M response (jsval * jsval * jsval) :=
  usr <- prop req_body "username" ;;
  eml <- prop req_body "email" ;;
  pwd <- prop req_body "password" ;;
  guard truthy usr && truthy eml && truthy pwd
    else_reply json_error 400 "username, email, and password are required" ;;
  match list_find (fun u => strict_eq (email u) eml = true) (users st) with
  | Some _ => Reply (json_error 409 "A user with that email already exists")
  | None => Continue (usr, eml, pwd)
  end.

(** The first piece of a registration; it writes nothing. A throw goes
    through [catch (err) { next(err) }] to the global error handler. *)
Definition register_arrives (req_body : jsval) (st : state) : output :=
  match register_checks req_body st with
  | Continue (usr, eml, pwd) => Suspended usr eml pwd
  | Reply r => Sent r
  | Throw msg => Sent (error_reply msg)
  end.

(** The second piece of a registration, on the store as it is when the
    hash has settled: [hashed] is the hash, or the message of the error
    the promise was rejected with. *)
Definition register_resumes (now : string) (usr eml : jsval) (hashed : string + string)
    (st : state) : state * response :=
  match hashed with
  | inr msg => (st, error_reply msg)
  | inl hashedPassword =>
      let u := {| id := nextId st;
                  username := usr;
                  email := eml;
                  password := hashedPassword;
                  createdAt := now |} in
      ({| users := (users st ++ [u])%list; nextId := (nextId st + 1)%Z |},
       {| code := 201; payload := UserBody (safeUser u) |})
  end.

Section Runtime.

(** [bcrypt.hash(password, 10)]: the hash, or the message of the error it
    rejects with; [parseInt(s, 10)], [None] being [NaN]. *)
Variable bcrypt_hash : string -> jsval -> string + string.
Variable parseInt10 : string -> option Z.

(** A registration that no other handler overlaps: the hash settles and
    the second piece runs before any other request is handled. *)
Definition register (e : env) (req_body : jsval) (st : state) : state * response :=
  match register_arrives req_body st with
  | Sent r => (st, r)
  | Suspended usr eml pwd =>
      register_resumes (now e) usr eml (bcrypt_hash (salt e) pwd) st
  end.

(** [GET /api/users/:id] *)
Definition get_user (param : string) (st : state) : state * response :=
  match parseInt10 param with
  | None => (st, json_error 404 "User not found")
  | Some n =>
      match list_find (fun u => id u = n) (users st) with
      | None => (st, json_error 404 "User not found")
      | Some (_, u) => (st, {| code := 200; payload := UserBody (safeUser u) |})
      end
  end.

(** [GET /api/users] *)
Definition list_users (st : state) : state * response :=
  (st, {| code := 200; payload := UsersBody (List.map safeUser (users st)) |}).

(** The requests of the service when they are handled one after the
    other, each registration being completed before the next request. *)
Inductive request : Type :=
| Register (e : env) (req_body : jsval)
| GetUser (param : string)
| ListUsers.

Definition handle (rq : request) (st : state) : state * response :=
  match rq with
  | Register e b => register e b st
  | GetUser p => get_user p st
  | ListUsers => list_users st
  end.

(** The pieces in which the handlers run when requests overlap: the
    event loop runs one piece at a time. [HashSettles] is the second piece
    of a registration that was suspended with [usr] and [eml]. *)
Inductive step : Type :=
| RegisterArrives (req_body : jsval)
| HashSettles (now : string) (usr eml : jsval) (hashed : string + string)
| GetUserArrives (param : string)
| ListUsersArrives.

Definition do_step (s : step) (st : state) : state * output :=
  match s with
  | RegisterArrives b => (st, register_arrives b st)
  | HashSettles now usr eml hashed =>
      (fst (register_resumes now usr eml hashed st),
       Sent (snd (register_resumes now usr eml hashed st)))
  | GetUserArrives p => (fst (get_user p st), Sent (snd (get_user p st)))
  | ListUsersArrives => (fst (list_users st), Sent (snd (list_users st)))
  end.

(** The store after a sequence of pieces, and what each of them put out. *)
Fixpoint run_steps (ss : list step) (st : state) : state * list output :=
  match ss with
  | [] => (st, [])
  | s :: rest =>
      let '(st1, o) := do_step s st in
      let '(st2, os) := run_steps rest st1 in
      (st2, o :: os)
  end.

End Runtime.

(** Two outcomes of [bcrypt.hash] that differ at most in the hash. *)
Definition hashes_alike (hashed1 hashed2 : string + string) : Prop :=
  match hashed1, hashed2 with
  | inl _, inl _ => True
  | inr msg1, inr msg2 => msg1 = msg2
  | _, _ => False
  end.

(** Two pieces that differ at most in the hash that [bcrypt] produced. *)
Definition alike (s1 s2 : step) : Prop :=
  match s1, s2 with
  | HashSettles now1 usr1 eml1 hashed1, HashSettles now2 usr2 eml2 hashed2 =>
      now1 = now2 /\ usr1 = usr2 /\ eml1 = eml2 /\ hashes_alike hashed1 hashed2
  | _, _ => s1 = s2
  end.

(** Two users that differ at most in the stored password. *)
Definition same_but_password (u1 u2 : user) : Prop :=
  id u1 = id u2 /\ username u1 = username u2 /\ email u1 = email u2 /\
  createdAt u1 = createdAt u2.

(** Two states that differ at most in stored passwords. *)
Definition low_equiv (s1 s2 : state) : Prop :=
  nextId s1 = nextId s2 /\ Forall2 same_but_password (users s1) (users s2).

End UserService.

(** ** The ingestion queue and its redrive policy *)

Module IngestionQueue.

(** [RedrivePolicy.maxReceiveCount] of [OrderProcessingQueue]
    ([configure-aws.sh]). *)
Definition maxReceiveCount : nat := 3.

(** The terminal statuses of the order workflow. *)
Definition terminal (st : string) : bool :=
  bool_decide (st ∈ ["COMPLETED"; "FAILED"; "CANCELLED"]).

Inductive msg_state : Type :=
| Visible (receiveCount : nat)
| Deleted
| Quarantined (receiveCount : nat).

Record qstate : Type := mkQ { msg : msg_state; order_status : string }.

(** Modelled from the spec: the queue consumer and the redrive of the
    queue are not among the sources, only the queue's configuration is.
    One receive of the message: the receive count is bumped; a message
    received more than [max] times is moved to the dead-letter quarantine
    and the order is not touched; otherwise the delivery is processed,
    [attempt] being the status in which that run leaves the order, and the
    message is deleted only when that status is terminal, else it shows up
    again after the visibility timeout. *)
Definition receive (max : nat) (attempt : string) (s : qstate) : qstate :=
  match msg s with
  | Visible n =>
      if (max <? S n)%nat
      then {| msg := Quarantined (S n); order_status := order_status s |}
      else {| msg := if terminal attempt then Deleted else Visible (S n);
              order_status := attempt |}
  | _ => s
  end.

(** Modelled from the spec: the successive receives of one message, one
    entry of [attempts] per receive. *)
Fixpoint receives (max : nat) (attempts : list string) (s : qstate) : qstate :=
  match attempts with
  | [] => s
  | a :: rest => receives max rest (receive max a s)
  end.

Definition is_quarantined (s : qstate) : bool :=
  match msg s with
  | Quarantined _ => true
  | _ => false
  end.

End IngestionQueue.

(** ** The retry policy of the capability steps *)

Module Retry.

Inductive step : Type :=
| ReservePayment
| ReserveInventory
| CompensatePayment.

(** The success / permanent failure / transient failure trichotomy of a
    capability adapter. *)
Inductive outcome : Type :=
| Success
| PermanentFailure
| TransientFailure.

Record policy : Type := mkPolicy {
  intervalSeconds : Q;
  maxAttempts : nat;
  backoffRate : Q
}.

(** The [Retry] block quoted in [configure-aws.sh]:
    [IntervalSeconds: 2, MaxAttempts: 3, BackoffRate: 2.0]. *)
Definition default_policy : policy :=
  {| intervalSeconds := 2; maxAttempts := 3; backoffRate := 2 |}.

Definition step_policy (s : step) : policy := default_policy.

(** Modelled from the spec: the retry utility of the orchestrator is not
    among the sources. The delay before retry [n], counted from zero, is
    [intervalSeconds × backoffRate^n]. *)
Definition delay (p : policy) (n : nat) : Q :=
  (intervalSeconds p * backoffRate p ^ Z.of_nat n)%Q.

Inductive edge : Type :=
| SuccessEdge
| FailureEdge.

(** Modelled from the spec: one capability step under a retry policy.
    [capability k] is the outcome of invocation [k]; a transient failure
    is retried while retries are left, after the delay of that retry; a
    permanent failure, and a transient one with no retry left, take the
    failure edge. The result is the edge taken and the delays waited. *)
Fixpoint attempt_from (p : policy) (capability : nat -> outcome)
    (n retries_left : nat) : edge * list Q :=
  match capability n with
  | Success => (SuccessEdge, [])
  | PermanentFailure => (FailureEdge, [])
  | TransientFailure =>
      match retries_left with
      | O => (FailureEdge, [])
      | S remaining =>
          let '(e, ds) := attempt_from p capability (S n) remaining in
          (e, delay p n :: ds)
      end
  end.

Definition run_step (s : step) (capability : nat -> outcome) : edge * list Q :=
  attempt_from (step_policy s) capability 0 (maxAttempts (step_policy s)).

(** A capability that times out on its first two invocations and then
    succeeds. *)
Definition two_timeouts_then_success (n : nat) : outcome :=
  if (n <? 2)%nat then TransientFailure else Success.

End Retry.

(** ** Notions used to state the properties of the order service *)

Module OrderProps.
Import OrderService.

(** The statuses of [VALID_STATUSES] out of which the workflow has no
    edge: a delivered and a cancelled order. *)
Definition terminal_status (st : string) : bool :=
  String.eqb st "delivered" || String.eqb st "cancelled".

(** Everything of an order but [status] and [updatedAt]. *)
Definition same_frame (o o' : order) : Prop :=
  orderId o' = orderId o /\ userId o' = userId o /\ items o' = items o /\
  shippingAddress o' = shippingAddress o /\ total o' = total o /\
  createdAt o' = createdAt o.

(** [orders'] holds the orders of [orders] at the same positions, the same
    but for [status] and [updatedAt], and possibly more orders after them. *)
Definition extends (orders orders' : list order) : Prop :=
  exists pre extra, orders' = (pre ++ extra)%list /\ Forall2 same_frame orders pre.

(** Quantity times unit price of one line, as the spec words the total,
    the product being the one of doubles. *)
Definition line_amount (item : jsval) : spec_float :=
  match assoc "price" (match item with JObj fs => fs | _ => [] end),
        assoc "quantity" (match item with JObj fs => fs | _ => [] end) with
  | JNum p, JNum q => IEEE.fmul (IEEE.of_Q q) (IEEE.of_Q p)
  | _, _ => IEEE.zero
  end.

(** The sum over all items of quantity times unit price: the lines are
    added to 0 one after the other, in the order of the items. *)
Definition items_sum (its : list jsval) : spec_float :=
  fold_left (fun sum item => IEEE.fadd sum (line_amount item)) its IEEE.zero.

(** An item that the validation loop must turn down. *)
Definition item_invalid (item : jsval) : Prop :=
  exists price quantity,
    get_prop item "price" = Some price /\ get_prop item "quantity" = Some quantity /\
    (price_rejected price = true \/ quantity_rejected quantity = true).

End OrderProps.

(** ** Concrete requests and orders used in the examples *)

Module Examples.
Import OrderService.

Definition line (pid : string) (unit_price qty : Q) : jsval :=
  JObj [("productId", JStr pid); ("name", JStr "item");
        ("price", JNum unit_price); ("quantity", JNum qty)].

Definition order_request (its : list jsval) : jsval :=
  JObj [("userId", JStr "user-1"); ("items", JArr its);
        ("shippingAddress", JStr "1 Main Street")].

(** Two units at 29.99 and one unit at 49.99. *)
Definition scenario_A : jsval :=
  order_request [line "sku-1" (2999 # 100) 2; line "sku-2" (4999 # 100) 1].

(** One unit at a tenth of a cent. *)
Definition sub_cent_request : jsval :=
  order_request [line "sku-3" (1 # 1000) 1].

(** One unit at 1.005. *)
Definition half_cent_request : jsval :=
  order_request [line "sku-5" (1005 # 1000) 1].

(** [items: [null, {.., price: -1, ..}]] *)
Definition null_item_request : jsval :=
  order_request [JNull; line "sku-4" (-1) 1].

(** A valid request that carries an idempotency key. *)
Definition keyed_request : jsval :=
  JObj [("userId", JStr "user-1");
        ("items", JArr [line "sku-1" (2999 # 100) 2]);
        ("shippingAddress", JStr "1 Main Street");
        ("idempotencyKey", JStr "key-1")].

Definition stored_order (oid st : string) : order :=
  {| orderId := oid;
     userId := JStr "user-1";
     items := [line "sku-1" (2999 # 100) 2];
     shippingAddress := JStr "1 Main Street";
     total := IEEE.of_Q (5998 # 100);
     status := st;
     createdAt := "2024-01-01T00:00:00.000Z";
     updatedAt := "2024-01-01T00:00:00.000Z" |}.

Definition first_env : env :=
  {| uuidv4 := "id-1"; now_created := "2024-01-01T00:00:00.000Z";
     now_updated := "2024-01-01T00:00:00.000Z" |}.

Definition second_env : env :=
  {| uuidv4 := "id-2"; now_created := "2024-01-01T00:00:01.000Z";
     now_updated := "2024-01-01T00:00:01.000Z" |}.

Definition status_request (st : string) : jsval := JObj [("status", JStr st)].

(** A body of [POST /api/cart/:userId/items]. *)
Definition cart_request (pid : string) (qty : jsval) : jsval :=
  JObj [("productId", JStr pid); ("name", JStr "item");
        ("price", JNum (1999 # 100)); ("quantity", qty)].

(** A registered user and the state that holds only that user. *)
Definition user_state (stored_hash : string) : UserService.state :=
  {| UserService.users :=
       [ {| UserService.id := 1;
            UserService.username := JStr "alice";
            UserService.email := JStr "alice@example.com";
            UserService.password := stored_hash;
            UserService.createdAt := "2024-01-01T00:00:00.000Z" |} ];
     UserService.nextId := 2 |}.

(** Stand-ins for [bcrypt.hash] and [parseInt] in the examples. *)
Definition demo_hash (salt : string) (pwd : jsval) : string + string :=
  match pwd with
  | JStr s => inl ("$2a$10$" ++ salt ++ s)
  | _ => inr "Illegal arguments"
  end.

Definition demo_parseInt (s : string) : option Z :=
  if String.eqb s "1" then Some 1%Z else if String.eqb s "2" then Some 2%Z else None.

End Examples.

(** ** Further notions for the order service *)

Module OrderMore.
Import OrderService OrderProps.

(** An item that passes every check of the validation loop. *)
Definition item_valid (item : jsval) : Prop :=
  exists pid nm p q,
    get_prop item "productId" = Some pid /\ truthy pid = true /\
    get_prop item "name" = Some nm /\ truthy nm = true /\
    get_prop item "price" = Some (JNum p) /\ (0 <= p)%Q /\
    get_prop item "quantity" = Some (JNum q) /\
    is_integer q = true /\ (1 <= q)%Q.

(** A body that passes every check of [POST /api/orders]. *)
Definition request_valid (b : jsval) : Prop :=
  exists uid its sh,
    get_prop b "userId" = Some uid /\ truthy uid = true /\
    get_prop b "items" = Some (JArr its) /\ its <> [] /\
    get_prop b "shippingAddress" = Some sh /\ truthy sh = true /\
    Forall item_valid its.

(** What holds of every order that a creation has stored. *)
Definition order_wf (o : order) : Prop :=
  truthy (userId o) = true /\ truthy (shippingAddress o) = true /\
  items o <> [] /\ Forall item_valid (items o) /\
  total o = round_cents (items_sum (items o)).

(** The orders that [GET /api/orders/user/:userId] lists. *)
Definition listing (uid : string) (orders : list order) : list order :=
  match payload (snd (get_user_orders uid orders)) with
  | OrdersBody os => os
  | _ => []
  end.

End OrderMore.

(** ** Further notions for the cart service *)

Module CartMore.
Import CartService.

(** The entries of a user's cart, a cart never created being empty. *)
Definition contents (u : string) (carts : gmap string (list cart_item)) : list cart_item :=
  default [] (carts !! u).

(** Two stores that hold the same entries for every user: they differ at
    most in whether an empty cart has been created. *)
Definition same_contents (c1 c2 : gmap string (list cart_item)) : Prop :=
  forall u, contents u c1 = contents u c2.

(** The user whose cart a request addresses. *)
Definition user_of (rq : request) : string :=
  match rq with
  | AddItem u _ | UpdateItem u _ _ | RemoveItem u _ | Clear u | GetCart u => u
  end.

(** Two entries that agree on everything but the quantity. *)
Definition same_catalog (a b : cart_item) : Prop :=
  productId a = productId b /\ name a = name b /\ price a = price b.

(** Stand-ins for the two conversions of the runtime in the examples; the
    statements they illustrate hold for every choice of the conversions. *)
Definition demo_StringToNumber (s : string) : number :=
  if String.eqb s "" then Fin 0 else NaN.

Definition demo_NumberToString (n : number) : string :=
  match n with
  | Fin _ => "0"
  | NaN => "NaN"
  end.

(** An addition whose product identifier is a number. *)
Definition numbered_request (pid qty : Q) : jsval :=
  JObj [("productId", JNum pid); ("name", JStr "item");
        ("price", JNum (1999 # 100)); ("quantity", JNum qty)].

Definition quantity_request (qty : Q) : jsval := JObj [("quantity", JNum qty)].

(** An addition whose price is an object with a [toString] property of
    its own, which [Number] cannot convert. *)
Definition shadowed_request : jsval :=
  JObj [("productId", JStr "sku-1"); ("name", JStr "item");
        ("price", JObj [("toString", JNum 1)]); ("quantity", JNum 1)].

End CartMore.

(** ** Login ([POST /api/users/login]) *)

Module UserLogin.
Import UserService.

Inductive body : Type :=
| ErrorBody (error : string)
| TokenBody (token : string) (userId : Z).

Record response : Type := mkResponse { code : Z; payload : body }.

Definition json_error (c : Z) (msg : string) : response :=
  {| code := c; payload := ErrorBody msg |}.

Section Runtime.

(** [bcrypt.compare(password, hash)]: the verdict, or the message of the
    error it rejects with; [jwt.sign({ id, email }, JWT_SECRET, ..)] at a
    clock reading. *)
Variable bcrypt_compare : jsval -> string -> bool + string.
Variable jwt_sign : string -> Z -> jsval -> string.

Definition login_body (now : string) (req_body : jsval) (st : state) : M response response :=
  eml <- prop req_body "email" ;;
  pwd <- prop req_body "password" ;;
  guard truthy eml && truthy pwd
    else_reply json_error 400 "email and password are required" ;;
  match list_find (fun u => strict_eq (email u) eml = true) (users st) with
  | None => Reply (json_error 401 "Invalid credentials")
  | Some (_, u) =>
      match bcrypt_compare pwd (password u) with
      | inr msg => Throw msg
      | inl false => Reply (json_error 401 "Invalid credentials")
      | inl true =>
          Continue {| code := 200;
                      payload := TokenBody (jwt_sign now (id u) (email u)) (id u) |}
      end
  end.

(** [POST /api/users/login]; the store is only read, and only before the
    [await] on [bcrypt.compare]: what follows the [await] uses the user
    object found before it, and user objects are never changed. The reply
    is therefore a function of the store at the arrival of the request. *)
Definition login (now : string) (req_body : jsval) (st : state) : response :=
  match login_body now req_body st with
  | Continue r => r
  | Reply r => r
  | Throw msg => json_error 500 (if String.eqb msg "" then "Internal server error" else msg)
  end.

End Runtime.

End UserLogin.

(** ** Further notions for the user service *)

Module UserMore.
Import UserService.

(** The identifiers handed out so far are pairwise distinct and below
    [nextId]. *)
Definition ids_wf (st : state) : Prop :=
  Forall (fun u => (id u < nextId st)%Z) (users st) /\
  NoDup (id <$> users st).

(** The identifiers handed out so far are pairwise distinct and below
    [nextId], and no two users have the same email in the sense of [===]. *)
Definition users_wf (st : state) : Prop :=
  Forall (fun u => (id u < nextId st)%Z) (users st) /\
  NoDup (id <$> users st) /\
  (forall i j a b,
     users st !! i = Some a -> users st !! j = Some b ->
     strict_eq (email a) (email b) = true -> i = j).

Section Runtime.

Variable bcrypt_hash : string -> jsval -> string + string.
Variable parseInt10 : string -> option Z.

(** The state after a sequence of requests. *)
Fixpoint run (rqs : list request) (st : state) : state :=
  match rqs with
  | [] => st
  | rq :: rest => run rest (fst (handle bcrypt_hash parseInt10 rq st))
  end.

End Runtime.

(** Stand-ins for [bcrypt] that keep the password as it is. *)
Definition plain_hash (salt : string) (pwd : jsval) : string + string :=
  match pwd with
  | JStr s => inl s
  | _ => inr "Illegal arguments"
  end.

Definition plain_compare (pwd : jsval) (h : string) : bool + string :=
  match pwd with
  | JStr s => inl (String.eqb s h)
  | _ => inr "Illegal arguments"
  end.

Definition demo_sign (now : string) (uid : Z) (eml : jsval) : string :=
  "token@" ++ now.

Definition credentials (eml pwd : string) : jsval :=
  JObj [("username", JStr "bob"); ("email", JStr eml); ("password", JStr pwd)].

End UserMore.

(** ** The cart page of the storefront ([frontend/src/app/cart/page.tsx]) *)

Module CartPage.

Record CartItem : Type := mkCartItem {
  id : Q;
  name : string;
  price : Q;
  quantity : Q
}.

(** [Math.max(1, x)] *)
Definition max1 (x : Q) : Q := if Qle_bool 1 x then x else 1%Q.

Definition updateQuantity (i delta : Q) (cartItems : list CartItem) : list CartItem :=
  List.map (fun item =>
              if Qeq_bool (id item) i
              then {| id := id item; name := name item; price := price item;
                      quantity := max1 (quantity item + delta) |}
              else item)
           cartItems.

Definition removeItem (i : Q) (cartItems : list CartItem) : list CartItem :=
  List.filter (fun item => negb (Qeq_bool (id item) i)) cartItems.

Definition subtotal (cartItems : list CartItem) : Q :=
  fold_left (fun sum item => (sum + price item * quantity item)%Q) cartItems 0%Q.

(** [subtotal > 100 ? 0 : 9.99] *)
Definition shipping (cartItems : list CartItem) : Q :=
  if Qltb 100 (subtotal cartItems) then 0%Q else (999 # 100)%Q.

Definition total (cartItems : list CartItem) : Q :=
  (subtotal cartItems + shipping cartItems)%Q.

(** The clicks of the page that change the cart. *)
Inductive click : Type :=
| Plus (i : Q)
| Minus (i : Q)
| Trash (i : Q).

Definition on_click (c : click) (cartItems : list CartItem) : list CartItem :=
  match c with
  | Plus i => updateQuantity i 1 cartItems
  | Minus i => updateQuantity i (-1) cartItems
  | Trash i => removeItem i cartItems
  end.

Definition clicks (cs : list click) (cartItems : list CartItem) : list CartItem :=
  fold_left (fun items c => on_click c items) cs cartItems.

(** The demo cart the page starts with. *)
Definition initial_cart : list CartItem :=
  [ {| id := 1; name := "Laptop"; price := 99999 # 100; quantity := 1 |};
    {| id := 3; name := "Headphones"; price := 19999 # 100; quantity := 2 |} ].


End CartPage.

(** * Properties of the double arithmetic *)

Module IEEEFacts.
Import IEEE.

Lemma fmul_comm x y : fmul x y = fmul y x.
Proof.
  unfold fmul, SFmul.
  destruct x as [sx|sx| |sx mx ex], y as [sy|sy| |sy my ey]; try reflexivity;
    rewrite ?(xorb_comm sx sy); try reflexivity.
  rewrite (Pos.mul_comm mx my), (Z.add_comm ex ey). reflexivity.
Qed.

Lemma value_of_Z k : exists w, value (of_Z k) = Some w /\ (w == inject_Z k)%Q.
Proof.
  destruct k as [|p|p]; simpl; eexists; (split; [reflexivity|]).
  - reflexivity.
  - change (2 ^ 0)%Q with 1%Q. ring.
  - change (2 ^ 0)%Q with 1%Q. ring.
Qed.

Lemma Qpower_2_pos d : (2 ^ Zpos d == inject_Z (2 ^ Zpos d))%Q.
Proof. symmetry. apply (Zpower_Qpower 2 (Zpos d)). lia. Qed.

(** [k] is the integer within a half of [z / P], the upper one at a tie,
    as soon as [2 P k <= 2 z + P < 2 P (k + 1)]. *)
Lemma half_bounds (z k P : Z) (v : Q) :
  (0 < P)%Z ->
  (v * inject_Z P == inject_Z z)%Q ->
  (2 * P * k <= 2 * z + P < 2 * P * (k + 1))%Z ->
  (inject_Z k - (1 # 2) <= v)%Q /\ (v < inject_Z k + (1 # 2))%Q.
Proof.
  intros HP Hv [Hlo Hhi].
  assert (0 < inject_Z P)%Q as HPq.
  { unfold Qlt. simpl. lia. }
  assert (0 < inject_Z P * 2)%Q as HP2.
  { rewrite <- (Qmult_0_l 2). apply Qmult_lt_compat_r; done. }
  assert (v * (inject_Z P * 2) == inject_Z (2 * z))%Q as E1.
  { rewrite inject_Z_mult, <- Hv. change (inject_Z 2) with 2%Q. ring. }
  assert ((inject_Z k - (1 # 2)) * (inject_Z P * 2) == inject_Z (2 * P * k - P))%Q as E2.
  { unfold Zminus. rewrite inject_Z_plus, inject_Z_opp, !inject_Z_mult.
    change (inject_Z 2) with 2%Q. field. }
  assert ((inject_Z k + (1 # 2)) * (inject_Z P * 2) == inject_Z (2 * P * k + P))%Q as E3.
  { rewrite inject_Z_plus, !inject_Z_mult. change (inject_Z 2) with 2%Q. field. }
  split.
  - apply (Qmult_le_r _ _ (inject_Z P * 2)); [done|].
    rewrite E1, E2, <- Zle_Qle. lia.
  - apply (Qmult_lt_r _ _ (inject_Z P * 2)); [done|].
    rewrite E1, E3, <- Zlt_Qlt. lia.
Qed.

(** [Math.round] of a finite double is the integer within a half of it,
    the upper one at a tie. *)
Lemma Math_round_nearest x v :
  value x = Some v ->
  exists (k : Z) (w : Q),
    value (Math_round x) = Some w /\ (w == inject_Z k)%Q /\
    (inject_Z k - (1 # 2) <= v)%Q /\ (v < inject_Z k + (1 # 2))%Q.
Proof.
  destruct x as [s|s| |s m e]; simpl; try done.
  - intros [= <-]. exists 0%Z, 0%Q. split_and!; done.
  - intros [= <-]. set (z := if s then Z.neg m else Z.pos m).
    destruct e as [|d|d].
    + exists z, (inject_Z z * 2 ^ 0)%Q. split; [done|].
      assert (inject_Z z * 2 ^ 0 == inject_Z z)%Q as E by (change (2 ^ 0)%Q with 1%Q; ring).
      split; [done|]. rewrite E. split.
      * apply Qle_minus_iff. ring_simplify. done.
      * apply Qlt_minus_iff. ring_simplify. done.
    + exists (z * 2 ^ Zpos d)%Z, (inject_Z z * 2 ^ Zpos d)%Q. split; [done|].
      assert (inject_Z z * 2 ^ Zpos d == inject_Z (z * 2 ^ Zpos d))%Q as E.
      { rewrite inject_Z_mult, Qpower_2_pos. reflexivity. }
      split; [done|]. rewrite E. split.
      * apply Qle_minus_iff. ring_simplify. done.
      * apply Qlt_minus_iff. ring_simplify. done.
    + set (P := (2 ^ Zpos d)%Z).
      assert (0 < P)%Z as HP by (apply Z.pow_pos_nonneg; lia).
      assert (2 ^ (Zpos d + 1) = 2 * P)%Z as E2.
      { unfold P. rewrite Z.pow_add_r by lia. lia. }
      rewrite E2.
      set (k := ((2 * z + P) / (2 * P))%Z).
      assert (2 * P * k <= 2 * z + P < 2 * P * (k + 1))%Z as Hk.
      { unfold k. pose proof (Z.mul_div_le (2 * z + P) (2 * P) ltac:(lia)).
        pose proof (Z.mul_succ_div_gt (2 * z + P) (2 * P) ltac:(lia)). lia. }
      assert (inject_Z z * 2 ^ Z.neg d * inject_Z P == inject_Z z)%Q as Hv.
      { change (2 ^ Z.neg d)%Q with (/ (2 ^ Zpos d))%Q. rewrite Qpower_2_pos. fold P.
        field. intros H0. apply (inject_Z_injective P 0) in H0. lia. }
      destruct (half_bounds z k P _ HP Hv Hk) as [Hlo Hhi].
      destruct (value_of_Z k) as (w & Hw & Ew).
      exists k. destruct k as [|p|p] eqn:Ek.
      * exists 0%Q. split_and!; done.
      * exists w. split_and!; done.
      * exists w. split_and!; done.
Qed.

(** The infinities and [NaN] go through [Math.round] as they are. *)
Lemma Math_round_not_finite x : value x = None -> Math_round x = x.
Proof. by destruct x. Qed.

End IEEEFacts.

(** * Properties of the order service *)

Module OrderFacts.
Import OrderService OrderProps.

Lemma same_frame_refl o : same_frame o o.
Proof. by repeat split. Qed.

Lemma same_frame_trans a b c : same_frame a b -> same_frame b c -> same_frame a c.
Proof. unfold same_frame. intuition congruence. Qed.

Lemma same_frame_set_status o st now : same_frame o (set_status o st now).
Proof. by repeat split. Qed.

Lemma Forall2_same_frame_refl orders : Forall2 same_frame orders orders.
Proof. induction orders; constructor; auto using same_frame_refl. Qed.

Lemma extends_refl orders : extends orders orders.
Proof.
  exists orders, []. split; [by rewrite app_nil_r|apply Forall2_same_frame_refl].
Qed.

Lemma extends_trans a b c : extends a b -> extends b c -> extends a c.
Proof.
  intros (p1 & x1 & -> & H1) (p2 & x2 & -> & H2).
  apply Forall2_app_inv_l in H2 as (q1 & q2 & Hq1 & Hq2 & ->).
  exists q1, (q2 ++ x2)%list. split; [by rewrite app_assoc|].
  revert q1 Hq1. induction H1; intros q1 Hq1; inversion Hq1; subst; constructor.
  - eapply same_frame_trans; eauto.
  - eauto.
Qed.

Lemma extends_app orders o : extends orders (orders ++ [o])%list.
Proof. exists orders, [o]. split; [done|apply Forall2_same_frame_refl]. Qed.

Lemma extends_insert orders i o o' :
  orders !! i = Some o -> same_frame o o' -> extends orders (<[i := o']> orders).
Proof.
  intros Hi Hf. exists (<[i := o']> orders), []. split; [by rewrite app_nil_r|].
  apply Forall2_same_length_lookup_2; [by rewrite length_insert|].
  intros j a b Ha Hb. destruct (decide (i = j)) as [->|Hne].
  - rewrite list_lookup_insert_eq in Hb by (by eapply lookup_lt_Some).
    congruence.
  - rewrite list_lookup_insert_ne in Hb by done.
    assert (a = b) as -> by congruence. apply same_frame_refl.
Qed.

Lemma extends_lookup orders orders' i o :
  extends orders orders' -> orders !! i = Some o ->
  exists o', orders' !! i = Some o' /\ same_frame o o'.
Proof.
  intros (pre & extra & -> & HF) Hi.
  destruct (Forall2_lookup_l _ _ _ _ _ HF Hi) as (o' & Ho' & Hs).
  exists o'. split; [|done]. by apply lookup_app_l_Some.
Qed.

Lemma find_order_Some oid orders i o :
  find_order oid orders = Some (i, o) -> orders !! i = Some o /\ orderId o = oid.
Proof. unfold find_order. intros H. apply list_find_Some in H. tauto. Qed.

(** A lookup by identifier lands on the same position after the store has
    been extended. *)
Lemma extends_find oid orders orders' i o :
  extends orders orders' -> find_order oid orders = Some (i, o) ->
  exists o', find_order oid orders' = Some (i, o') /\ same_frame o o'.
Proof.
  intros (pre & extra & -> & HF) Hfind. unfold find_order in *.
  apply list_find_Some in Hfind as (Hi & Hid & Hbefore).
  destruct (Forall2_lookup_l _ _ _ _ _ HF Hi) as (o' & Ho' & Hs).
  exists o'. split; [|done].
  apply list_find_Some. split; [by apply lookup_app_l_Some|].
  split; [destruct Hs as (-> & _); done|].
  intros j y Hj Hlt.
  assert (j < length pre)%nat as Hjl.
  { apply lookup_lt_Some in Ho'. lia. }
  rewrite lookup_app_l in Hj by done.
  destruct (Forall2_lookup_r _ _ _ _ _ HF Hj) as (x & Hx & Hxy).
  destruct Hxy as (-> & _). eauto.
Qed.

(** What a successful creation has checked and built. *)
Lemma create_body_Continue e b orders r :
  create_body e b orders = Continue r ->
  exists uid its sh t,
    get_prop b "userId" = Some uid /\
    get_prop b "items" = Some (JArr its) /\
    get_prop b "shippingAddress" = Some sh /\
    its <> [] /\
    validate_items its = Continue tt /\
    reduce_total its IEEE.zero = Continue t /\
    r = ((orders ++ [mkOrder (uuidv4 e) uid its sh (round_cents t) "pending"
                       (now_created e) (now_updated e)])%list,
         mkResponse 201 (OrderBody (mkOrder (uuidv4 e) uid its sh (round_cents t)
                       "pending" (now_created e) (now_updated e)))).
Proof.
  unfold create_body, destructure, prop.
  destruct (get_prop b "userId") as [uid|]; cbn [bind]; [|done].
  destruct (get_prop b "items") as [its|]; cbn [bind]; [|done].
  destruct (get_prop b "shippingAddress") as [sh|]; cbn [bind]; [|done].
  destruct (truthy uid); [|done].
  destruct its as [| | | | |[|item rest]|]; try done.
  destruct (truthy sh); [|done].
  destruct (validate_items (item :: rest)) as [[]| |] eqn:Hv; cbn [bind]; try done.
  destruct (reduce_total (item :: rest) IEEE.zero) as [t| |] eqn:Ht; cbn [bind]; try done.
  intros H. inversion H; subst. exists uid, (item :: rest), sh, t.
  split_and!; done.
Qed.

Lemma validate_item_Reply item r :
  validate_item item = Reply r -> code r = 400%Z.
Proof.
  unfold validate_item, prop.
  repeat (match goal with
          | |- context [get_prop ?v ?k] => destruct (get_prop v k); simpl; [|done]
          | |- context [if ?c then _ else _] => destruct c; simpl
          end); intros H; inversion H; done.
Qed.

Lemma validate_items_Reply its r :
  validate_items its = Reply r -> code r = 400%Z.
Proof.
  induction its as [|item rest IH]; simpl; [done|].
  destruct (validate_item item) as [[]| |] eqn:Hv; simpl; [done| |done].
  intros [= <-]. by eapply validate_item_Reply.
Qed.

Lemma reduce_total_no_Reply its acc r : reduce_total its acc <> Reply r.
Proof.
  revert acc. induction its as [|item rest IH]; intros acc; simpl; [done|].
  unfold item_amount, prop.
  destruct (get_prop item "price") as [p|]; cbn [bind]; [|done].
  destruct (get_prop item "quantity") as [q|]; cbn [bind]; [|done].
  destruct p, q; cbn [bind]; done || apply IH.
Qed.

Lemma create_body_Reply e b orders r :
  create_body e b orders = Reply r -> code r = 400%Z.
Proof.
  unfold create_body, destructure, prop.
  destruct (get_prop b "userId") as [uid|]; cbn [bind]; [|done].
  destruct (get_prop b "items") as [its|]; cbn [bind]; [|done].
  destruct (get_prop b "shippingAddress") as [sh|]; cbn [bind]; [|done].
  destruct (truthy uid); [|by intros [= <-]].
  destruct its as [| | | | |[|item rest]|]; try by intros [= <-].
  destruct (truthy sh); [|by intros [= <-]].
  destruct (validate_items (item :: rest)) as [[]| |] eqn:Hv; cbn [bind];
    [|intros [= <-]; by eapply validate_items_Reply|done].
  destruct (reduce_total (item :: rest) IEEE.zero) as [t| |] eqn:Ht; cbn [bind]; [done| |done].
  by apply reduce_total_no_Reply in Ht.
Qed.

Lemma post_order_cases e b orders :
  (fst (post_order e b orders) = orders /\ code (snd (post_order e b orders)) <> 201%Z) \/
  (exists o, post_order e b orders = ((orders ++ [o])%list, mkResponse 201 (OrderBody o))
             /\ orderId o = uuidv4 e /\ status o = "pending").
Proof.
  unfold post_order. destruct (create_body e b orders) as [r| |] eqn:Hc; simpl.
  - apply create_body_Continue in Hc as (uid & its & sh & t & _ & _ & _ & _ & _ & _ & ->).
    right. eexists. split; [reflexivity|]. done.
  - left. split; [done|]. apply create_body_Reply in Hc. rewrite Hc. done.
  - left. split; done.
Qed.

Lemma post_order_extends e b orders : extends orders (fst (post_order e b orders)).
Proof.
  destruct (post_order_cases e b orders) as [[-> _]|(o & -> & _)].
  - apply extends_refl.
  - apply extends_app.
Qed.

Lemma update_body_Continue now oid b orders r :
  update_body now oid b orders = Continue r ->
  exists s i o,
    get_prop b "status" = Some (JStr s) /\ s ∈ VALID_STATUSES /\
    find_order oid orders = Some (i, o) /\
    r = (<[i := set_status o s now]> orders,
         mkResponse 200 (OrderBody (set_status o s now))).
Proof.
  unfold update_body, destructure, prop.
  destruct (get_prop b "status") as [st|]; cbn [bind]; [|done].
  destruct (truthy st); [|done].
  unfold includes_status.
  destruct st as [| | | |s| |]; try done.
  case_bool_decide as Hin; [|done].
  destruct (find_order oid orders) as [[i o]|]; [|done].
  intros H. inversion H; subst. exists s, i, o. done.
Qed.

Lemma update_body_Reply now oid b orders r :
  update_body now oid b orders = Reply r -> code r = 400%Z \/ code r = 404%Z.
Proof.
  unfold update_body, destructure, prop.
  destruct (get_prop b "status") as [st|]; cbn [bind]; [|done].
  destruct (truthy st); [|intros [= <-]; by left].
  destruct (includes_status st); [|intros [= <-]; by left].
  destruct (find_order oid orders) as [[i o]|]; [done|intros [= <-]; by right].
Qed.

Lemma cancel_body_Continue now oid orders r :
  cancel_body now oid orders = Continue r ->
  exists i o,
    find_order oid orders = Some (i, o) /\ cancellable (status o) = true /\
    r = (<[i := set_status o "cancelled" now]> orders,
         mkResponse 200 (OrderBody (set_status o "cancelled" now))).
Proof.
  unfold cancel_body.
  destruct (find_order oid orders) as [[i o]|]; [|done].
  destruct (cancellable (status o)) eqn:Hc; [|done].
  intros H. inversion H; subst. exists i, o. done.
Qed.

Lemma put_status_extends now oid b orders :
  extends orders (fst (put_status now oid b orders)).
Proof.
  unfold put_status. destruct (update_body now oid b orders) as [r| |] eqn:Hu; simpl;
    try apply extends_refl.
  apply update_body_Continue in Hu as (s & i & o & _ & _ & Hf & ->). simpl.
  apply find_order_Some in Hf as [Hi _].
  eapply extends_insert; [done|apply same_frame_set_status].
Qed.

Lemma post_cancel_extends now oid orders :
  extends orders (fst (post_cancel now oid orders)).
Proof.
  unfold post_cancel. destruct (cancel_body now oid orders) as [r| |] eqn:Hu; simpl;
    try apply extends_refl.
  apply cancel_body_Continue in Hu as (i & o & Hf & _ & ->). simpl.
  apply find_order_Some in Hf as [Hi _].
  eapply extends_insert; [done|apply same_frame_set_status].
Qed.

Lemma handle_extends rq orders : extends orders (fst (handle rq orders)).
Proof.
  destruct rq; simpl.
  - apply post_order_extends.
  - unfold get_order. destruct (find_order oid orders) as [[]|]; apply extends_refl.
  - apply extends_refl.
  - apply put_status_extends.
  - apply post_cancel_extends.
Qed.

Lemma run_extends rqs orders : extends orders (run rqs orders).
Proof.
  revert orders. induction rqs as [|rq rest IH]; intros orders; simpl.
  - apply extends_refl.
  - eapply extends_trans; [apply handle_extends|apply IH].
Qed.

(** C6. Once an order is in the store, no sequence of operations of the
    service (creation of other orders, retrievals, status updates,
    cancellations) changes its orderId, userId, items, shipping address,
    total or createdAt: the order stays at its position, only [status] and
    [updatedAt] can differ, and a later retrieval by identifier returns
    the same order with the total computed at creation. *)
Theorem order_frame_preserved :
  forall (rqs : list request) (orders : list order) (i : nat) (o : order),
    orders !! i = Some o ->
    (exists o', run rqs orders !! i = Some o' /\ same_frame o o') /\
    (find_order (orderId o) orders = Some (i, o) ->
     exists o', get_order (orderId o) (run rqs orders)
                = (run rqs orders, mkResponse 200 (OrderBody o'))
                /\ same_frame o o' /\ total o' = total o).
Proof.
  intros rqs orders i o Hi. split.
  - eapply extends_lookup; [apply run_extends|done].
  - intros Hf.
    destruct (extends_find _ _ _ _ _ (run_extends rqs orders) Hf) as (o' & Hf' & Hs).
    exists o'. unfold get_order. rewrite Hf'. repeat split; try apply Hs.
Qed.

(** What one operation can do to the order at a given position. *)
Lemma handle_lookup rq orders i o :
  orders !! i = Some o ->
  exists o', fst (handle rq orders) !! i = Some o' /\
    (o' = o \/
     (exists now oid b s,
        rq = UpdateStatus now oid b /\ get_prop b "status" = Some (JStr s) /\
        s ∈ VALID_STATUSES /\ find_order oid orders = Some (i, o) /\
        o' = set_status o s now) \/
     (exists now oid,
        rq = Cancel now oid /\ find_order oid orders = Some (i, o) /\
        cancellable (status o) = true /\ o' = set_status o "cancelled" now)).
Proof.
  intros Hi. destruct rq as [e b|oid|uid|now oid b|now oid]; simpl.
  - destruct (post_order_cases e b orders) as [[-> _]|(o1 & -> & _)]; simpl.
    + eauto.
    + exists o. split; [by apply lookup_app_l_Some|by left].
  - unfold get_order. destruct (find_order oid orders) as [[]|]; simpl; eauto.
  - eauto.
  - unfold put_status.
    destruct (update_body now oid b orders) as [r| |] eqn:Hu; simpl; eauto.
    apply update_body_Continue in Hu as (s & j & oj & Hs & Hin & Hf & ->). simpl.
    destruct (decide (j = i)) as [->|Hne].
    + pose proof (find_order_Some _ _ _ _ Hf) as [Hj _].
      assert (oj = o) as -> by congruence.
      exists (set_status o s now). split.
      * apply list_lookup_insert_eq. by eapply lookup_lt_Some.
      * right; left. exists now, oid, b, s. done.
    + exists o. split; [by rewrite list_lookup_insert_ne|by left].
  - unfold post_cancel.
    destruct (cancel_body now oid orders) as [r| |] eqn:Hu; simpl; eauto.
    apply cancel_body_Continue in Hu as (j & oj & Hf & Hc & ->). simpl.
    destruct (decide (j = i)) as [->|Hne].
    + pose proof (find_order_Some _ _ _ _ Hf) as [Hj _].
      assert (oj = o) as -> by congruence.
      exists (set_status o "cancelled" now). split.
      * apply list_lookup_insert_eq. by eapply lookup_lt_Some.
      * right; right. exists now, oid. done.
    + exists o. split; [by rewrite list_lookup_insert_ne|by left].
Qed.

Lemma cancellable_spec st :
  cancellable st = true <-> st = "pending" \/ st = "confirmed".
Proof.
  unfold cancellable. rewrite orb_true_iff, !String.eqb_eq. done.
Qed.

Lemma cancellable_not_terminal st :
  terminal_status st = true -> cancellable st = false.
Proof.
  unfold terminal_status. rewrite orb_true_iff, !String.eqb_eq.
  intros [->| ->]; reflexivity.
Qed.

Lemma handle_valid rq orders :
  Forall (fun o => status o ∈ VALID_STATUSES) orders ->
  Forall (fun o => status o ∈ VALID_STATUSES) (fst (handle rq orders)).
Proof.
  intros Hall. destruct rq as [e b|oid|uid|now oid b|now oid]; simpl.
  - destruct (post_order_cases e b orders) as [[-> _]|(o1 & -> & _ & Hst)]; simpl; [done|].
    apply Forall_app. split; [done|]. constructor; [|done].
    rewrite Hst. unfold VALID_STATUSES. set_solver.
  - unfold get_order. by destruct (find_order oid orders) as [[]|].
  - done.
  - unfold put_status.
    destruct (update_body now oid b orders) as [r| |] eqn:Hu; simpl; try done.
    apply update_body_Continue in Hu as (s & j & oj & Hs & Hin & Hf & ->). simpl.
    by apply Forall_insert.
  - unfold post_cancel.
    destruct (cancel_body now oid orders) as [r| |] eqn:Hu; simpl; try done.
    apply cancel_body_Continue in Hu as (j & oj & Hf & Hc & ->). simpl.
    apply Forall_insert; [done|]. simpl. unfold VALID_STATUSES. set_solver.
Qed.

Lemma run_valid rqs orders :
  Forall (fun o => status o ∈ VALID_STATUSES) orders ->
  Forall (fun o => status o ∈ VALID_STATUSES) (run rqs orders).
Proof.
  revert orders. induction rqs as [|rq rest IH]; intros orders Hall; simpl; [done|].
  apply IH. by apply handle_valid.
Qed.

(** C1 (as amended). Along every sequence of operations every order holds
    one of the six [VALID_STATUSES]. One operation changes the status of
    an order only if it is an update-status that names the order and a
    valid status, and the order then holds the requested status whatever
    it held before, or a cancel that names the order while it is pending
    or confirmed, and the order then is cancelled. Cancel is the only
    guarded operation: it never changes a delivered or a cancelled order. *)
Theorem status_changes_characterised :
  forall (rqs : list request) (orders : list order),
    Forall (fun o => status o ∈ VALID_STATUSES) orders ->
    Forall (fun o => status o ∈ VALID_STATUSES) (run rqs orders) /\
    (forall (rq : request) (i : nat) (o : order),
       orders !! i = Some o ->
       exists o', fst (handle rq orders) !! i = Some o' /\
         (status o' = status o \/
          (exists now b, rq = UpdateStatus now (orderId o) b /\
             get_prop b "status" = Some (JStr (status o')) /\
             status o' ∈ VALID_STATUSES) \/
          (exists now, rq = Cancel now (orderId o) /\
             (status o = "pending" \/ status o = "confirmed") /\
             status o' = "cancelled")) /\
         (forall now oid, rq = Cancel now oid ->
            terminal_status (status o) = true -> status o' = status o)).
Proof.
  intros rqs orders Hall. split; [by apply run_valid|].
  intros rq i o Hi.
  destruct (handle_lookup rq orders i o Hi) as (o' & Ho' & Hcase).
  exists o'. split; [done|].
  destruct Hcase as [->|[(now & oid & b & s & -> & Hs & Hin & Hf & ->)
                         |(now & oid & -> & Hf & Hc & ->)]].
  - split; [by left|done].
  - apply find_order_Some in Hf as [_ <-]. split; [|done].
    right; left. exists now, b. done.
  - apply find_order_Some in Hf as [_ <-]. split.
    + right; right. exists now. split; [done|]. split; [by apply cancellable_spec|done].
    + intros now' oid' _ Hterm. apply cancellable_not_terminal in Hterm. congruence.
Qed.

(** C2 (as amended). Cancel succeeds exactly when the order exists and is
    pending or confirmed: it then sets the status to cancelled and bumps
    [updatedAt]. For an order in any other status it replies 400, for an
    unknown identifier 404, and in both cases the store is left as it was. *)
Theorem cancel_only_pending_or_confirmed :
  forall (now oid : string) (orders : list order),
    (forall i o, find_order oid orders = Some (i, o) ->
       (status o = "pending" \/ status o = "confirmed") ->
       post_cancel now oid orders
       = (<[i := set_status o "cancelled" now]> orders,
          mkResponse 200 (OrderBody (set_status o "cancelled" now)))) /\
    (forall i o, find_order oid orders = Some (i, o) ->
       ~ (status o = "pending" \/ status o = "confirmed") ->
       fst (post_cancel now oid orders) = orders /\
       code (snd (post_cancel now oid orders)) = 400%Z) /\
    (find_order oid orders = None ->
       post_cancel now oid orders = (orders, json_error 404 "Order not found")).
Proof.
  intros now oid orders. unfold post_cancel, cancel_body. split_and!.
  - intros i o -> Hst. apply cancellable_spec in Hst. by rewrite Hst.
  - intros i o -> Hst. rewrite <- cancellable_spec in Hst.
    destruct (cancellable (status o)); [by destruct Hst|done].
  - by intros ->.
Qed.

(** C3 (as amended). Creation does not deduplicate: the handler never
    reads an idempotency key. Every accepted creation request, whatever
    key its body carries, appends one new order under the identifier
    generated for that request, so two accepted requests leave two rows,
    and each reply carries the identifier generated for it. *)
Theorem creation_appends_a_row_each_time :
  forall (e1 e2 : env) (b1 b2 : jsval) (orders : list order),
    code (snd (post_order e1 b1 orders)) = 201%Z ->
    code (snd (post_order e2 b2 (fst (post_order e1 b1 orders)))) = 201%Z ->
    exists o1 o2,
      post_order e1 b1 orders = ((orders ++ [o1])%list, mkResponse 201 (OrderBody o1)) /\
      post_order e2 b2 (orders ++ [o1])%list
      = ((orders ++ [o1; o2])%list, mkResponse 201 (OrderBody o2)) /\
      orderId o1 = uuidv4 e1 /\ orderId o2 = uuidv4 e2.
Proof.
  intros e1 e2 b1 b2 orders H1 H2.
  destruct (post_order_cases e1 b1 orders) as [[_ Hn]|(o1 & E1 & Hid1 & _)]; [done|].
  rewrite E1 in H2. simpl in H2.
  destruct (post_order_cases e2 b2 (orders ++ [o1])%list) as [[_ Hn]|(o2 & E2 & Hid2 & _)];
    [done|].
  exists o1, o2. rewrite E1, E2, <- app_assoc. done.
Qed.

Lemma item_amount_line item a :
  item_amount item = Continue a -> a = line_amount item.
Proof.
  unfold item_amount, line_amount, prop.
  destruct item as [| | | | | |fs]; simpl; try done.
  destruct (assoc "price" fs) as [| | |p| | |]; try done.
  destruct (assoc "quantity" fs) as [| | |q| | |]; try done.
  intros [= <-]. apply IEEEFacts.fmul_comm.
Qed.

Lemma reduce_total_sum its acc t :
  reduce_total its acc = Continue t ->
  t = fold_left (fun sum item => IEEE.fadd sum (line_amount item)) its acc.
Proof.
  revert acc. induction its as [|item rest IH]; intros acc; simpl.
  - by intros [= <-].
  - destruct (item_amount item) as [a| |] eqn:Ha; cbn [bind]; try done.
    intros Hr. apply IH in Hr. apply item_amount_line in Ha. by subst.
Qed.

(** C5 (as amended). The initial status of a created order is pending and
    its total is [Math.round(s * 100) / 100] in double arithmetic, [s]
    being the sum of the lines, quantity times unit price, added to 0 in
    the order of the items: with [y] the double [s * 100], the total is
    the double quotient [r / 100] where [r] is the integer within a half
    of [y], the upper one at a tie ([r] is [y] itself when [y] is
    infinite or not a number). For two units at 29.99 and one unit at 49.99 the total is
    the double that 109.97 denotes. *)
Theorem total_is_sum_rounded_to_cents :
  (forall (e : env) (b : jsval) (orders : list order),
     code (snd (post_order e b orders)) = 201%Z ->
     exists o y r,
       post_order e b orders = ((orders ++ [o])%list, mkResponse 201 (OrderBody o)) /\
       status o = "pending" /\
       get_prop b "items" = Some (JArr (items o)) /\
       y = IEEE.fmul (items_sum (items o)) (IEEE.of_Q 100) /\
       total o = IEEE.fdiv r (IEEE.of_Q 100) /\
       match IEEE.value y with
       | Some v =>
           exists (k : Z) (w : Q),
             IEEE.value r = Some w /\ (w == inject_Z k)%Q /\
             (inject_Z k - (1 # 2) <= v)%Q /\ (v < inject_Z k + (1 # 2))%Q
       | None => r = y
       end) /\
  (forall (e : env) (orders : list order),
     exists o,
       post_order e Examples.scenario_A orders
       = ((orders ++ [o])%list, mkResponse 201 (OrderBody o)) /\
       status o = "pending" /\ total o = IEEE.of_Q (10997 # 100)).
Proof.
  split.
  - intros e b orders Hcode. unfold post_order in *.
    destruct (create_body e b orders) as [r| |] eqn:Hc; simpl in *; try done.
    + apply create_body_Continue in Hc
        as (uid & its & sh & t & _ & Hits & _ & _ & _ & Ht & ->).
      apply reduce_total_sum in Ht. fold (items_sum its) in Ht. subst t.
      eexists. exists (IEEE.fmul (items_sum its) (IEEE.of_Q 100)).
      exists (IEEE.Math_round (IEEE.fmul (items_sum its) (IEEE.of_Q 100))).
      split; [reflexivity|]. simpl. split_and!; try done.
      destruct (IEEE.value (IEEE.fmul (items_sum its) (IEEE.of_Q 100))) as [v|] eqn:Hv.
      * by apply IEEEFacts.Math_round_nearest.
      * by apply IEEEFacts.Math_round_not_finite.
    + apply create_body_Reply in Hc. rewrite Hc in Hcode. done.
  - intros e orders. eexists. split; [reflexivity|]. split; [reflexivity|].
    vm_compute. reflexivity.
Qed.

(** C4, what the code does on the failing input: a [null] among the
    items makes the validation loop throw, the throw is caught and the
    reply is 500, not 400, although a later item has a negative price. No
    order is added. *)
Theorem null_item_replies_500 :
  forall (e : env) (orders : list order),
    post_order e Examples.null_item_request orders
    = (orders, json_error 500 "Internal server error").
Proof. intros e orders. reflexivity. Qed.

Lemma validate_item_no_throw item msg :
  nullish item = false -> validate_item item <> Throw msg.
Proof.
  intros Hn. unfold validate_item, prop.
  destruct item; simpl in *; try done;
    repeat (match goal with
            | |- context [if ?c then _ else _] => destruct c; simpl
            end); done.
Qed.

Lemma validate_item_invalid item :
  item_invalid item -> exists r, validate_item item = Reply r.
Proof.
  intros (p & q & Hp & Hq & Hbad). unfold validate_item, prop.
  destruct (get_prop item "productId") as [pid|] eqn:Hpid; cbn [bind].
  2:{ destruct item; simpl in *; done. }
  destruct (truthy pid); [|eauto].
  destruct (get_prop item "name") as [nm|] eqn:Hnm; cbn [bind].
  2:{ destruct item; simpl in *; done. }
  destruct (truthy nm); [|eauto].
  rewrite Hp, Hq. cbn [bind].
  destruct (nullish p); simpl; [eauto|].
  destruct (nullish q); simpl; [eauto|].
  destruct (price_rejected p); simpl; [eauto|].
  destruct (quantity_rejected q); simpl; [eauto|].
  destruct Hbad; done.
Qed.

Lemma validate_items_invalid its :
  Forall (fun item => nullish item = false) its ->
  Exists item_invalid its ->
  exists r, validate_items its = Reply r.
Proof.
  intros Hnn Hex. induction Hex as [item rest Hbad|item rest Hex IH]; simpl.
  - destruct (validate_item_invalid item Hbad) as (r & ->). simpl. eauto.
  - inversion Hnn as [|? ? Hi Hrest]; subst.
    destruct (validate_item item) as [[]| |] eqn:Hv; cbn [bind]; eauto.
    by apply validate_item_no_throw in Hv.
Qed.

(** The part of C4 that the code does meet: a body whose [items] is
    missing, not an array or empty, or holds an invalid item and no [null],
    is turned down with 400 and the store is left as it was. *)
Lemma invalid_items_reply_400 e b orders :
  get_prop b "items" <> None ->
  (forall its, get_prop b "items" = Some (JArr its) ->
     its = [] \/
     (Forall (fun item => nullish item = false) its /\ Exists item_invalid its)) ->
  post_order e b orders = (orders, snd (post_order e b orders)) /\
  code (snd (post_order e b orders)) = 400%Z.
Proof.
  intros Hbody Hbad.
  assert (exists r, create_body e b orders = Reply r) as (r & Hr).
  { unfold create_body, destructure, prop.
    destruct (get_prop b "userId") as [uid|] eqn:Hu; cbn [bind].
    2:{ destruct b; simpl in *; done. }
    destruct (get_prop b "items") as [its|] eqn:Hi; cbn [bind]; [|done].
    destruct (get_prop b "shippingAddress") as [sh|] eqn:Hs; cbn [bind].
    2:{ destruct b; simpl in *; done. }
    destruct (truthy uid); [|eauto].
    destruct its as [| | | | |[|item rest]|]; eauto.
    destruct (truthy sh); [|eauto].
    destruct (Hbad _ eq_refl) as [?|[Hnn Hex]]; [done|].
    destruct (validate_items_invalid _ Hnn Hex) as (r & ->). cbn [bind]. eauto. }
  unfold post_order. rewrite Hr. simpl. split; [done|].
  by apply create_body_Reply in Hr.
Qed.

(** *** Concrete runs *)

Import Examples.

(** C1, counterexample to the property as the specification states it:
    an update-status request moves a delivered order back to pending, and
    moves a pending order straight to delivered. *)
Lemma update_status_leaves_terminal_state :
  terminal_status (status (stored_order "id-1" "delivered")) = true /\
  status <$> (fst (put_status "2024-01-02T00:00:00.000Z" "id-1" (status_request "pending")
                     [stored_order "id-1" "delivered"]) !! 0%nat) = Some "pending" /\
  status <$> (fst (put_status "2024-01-02T00:00:00.000Z" "id-1" (status_request "delivered")
                     [stored_order "id-1" "pending"]) !! 0%nat) = Some "delivered".
Proof. split_and!; reflexivity. Qed.

(** The statement for C1 applied to a pending order that is shipped and
    then refused cancellation. *)
Lemma status_changes_characterised_witness :
  Forall (fun o => status o ∈ VALID_STATUSES) [stored_order "id-1" "pending"] /\
  Forall (fun o => status o ∈ VALID_STATUSES)
    (run [UpdateStatus "2024-01-02T00:00:00.000Z" "id-1" (status_request "shipped");
          Cancel "2024-01-03T00:00:00.000Z" "id-1"]
       [stored_order "id-1" "pending"]).
Proof.
  assert (Forall (fun o => status o ∈ VALID_STATUSES) [stored_order "id-1" "pending"]) as H.
  { apply Forall_cons. split; [apply list_elem_of_here|apply Forall_nil_2]. }
  split; [exact H|].
  exact (proj1 (status_changes_characterised
                  [UpdateStatus "2024-01-02T00:00:00.000Z" "id-1" (status_request "shipped");
                   Cancel "2024-01-03T00:00:00.000Z" "id-1"]
                  [stored_order "id-1" "pending"] H)).
Defined.

(** C2, counterexample to the property as the specification states it:
    a processing order cannot be cancelled (400, store unchanged), a
    confirmed order can. *)
Lemma cancel_refuses_processing_accepts_confirmed :
  post_cancel "2024-01-02T00:00:00.000Z" "id-1" [stored_order "id-1" "processing"]
  = ([stored_order "id-1" "processing"],
     json_error 400
       ("Cannot cancel order with status " ++ dquote ++ "processing" ++ dquote
        ++ ". Only pending or confirmed orders can be cancelled.")) /\
  post_cancel "2024-01-02T00:00:00.000Z" "id-1" [stored_order "id-1" "confirmed"]
  = ([set_status (stored_order "id-1" "confirmed") "cancelled" "2024-01-02T00:00:00.000Z"],
     mkResponse 200
       (OrderBody (set_status (stored_order "id-1" "confirmed") "cancelled"
                     "2024-01-02T00:00:00.000Z"))).
Proof. split; reflexivity. Qed.

(** C3, counterexample to the property as the specification states it:
    the same request, with the same idempotency key, sent twice leaves two
    rows with two identifiers. *)
Lemma same_key_twice_gives_two_rows :
  get_prop keyed_request "idempotencyKey" = Some (JStr "key-1") /\
  orderId <$> run [Create first_env keyed_request; Create second_env keyed_request] []
  = ["id-1"; "id-2"].
Proof. split; reflexivity. Qed.

(** The statement for C3 applied to the keyed request sent twice. *)
Lemma creation_appends_a_row_each_time_witness :
  code (snd (post_order first_env keyed_request [])) = 201%Z /\
  code (snd (post_order second_env keyed_request
               (fst (post_order first_env keyed_request [])))) = 201%Z /\
  exists o1 o2,
    post_order first_env keyed_request [] = (([] ++ [o1])%list, mkResponse 201 (OrderBody o1)) /\
    post_order second_env keyed_request ([] ++ [o1])%list
    = (([] ++ [o1; o2])%list, mkResponse 201 (OrderBody o2)) /\
    orderId o1 = uuidv4 first_env /\ orderId o2 = uuidv4 second_env.
Proof.
  split; [reflexivity|]. split; [reflexivity|].
  exact (creation_appends_a_row_each_time first_env second_env keyed_request keyed_request []
           eq_refl eq_refl).
Defined.

(** C5, counterexample to the property as the specification states it:
    one unit at 0.001 is accepted, the sum is the double 0.001 and the
    stored total is 0; one unit at 1.005 is accepted and the stored total
    is 1, not 1.01, the double [1.005 * 100] lying below 100.5. *)
Lemma sub_cent_total_differs_from_sum :
  (exists o,
     post_order first_env sub_cent_request [] = ([o], mkResponse 201 (OrderBody o)) /\
     items_sum (items o) = IEEE.of_Q (1 # 1000) /\
     total o = IEEE.zero /\
     total o <> items_sum (items o)) /\
  (exists o,
     post_order first_env half_cent_request [] = ([o], mkResponse 201 (OrderBody o)) /\
     items_sum (items o) = IEEE.of_Q (1005 # 1000) /\
     total o = IEEE.of_Q 1 /\
     total o <> items_sum (items o) /\
     total o <> IEEE.of_Q (101 # 100)).
Proof.
  split; eexists; (split; [reflexivity|]); split_and!; vm_compute; done.
Qed.

(** The statement for C2 applied to a pending order, which is cancelled. *)
Lemma cancel_only_pending_or_confirmed_witness :
  find_order "id-1" [stored_order "id-1" "pending"]
  = Some (0%nat, stored_order "id-1" "pending") /\
  post_cancel "2024-01-02T00:00:00.000Z" "id-1" [stored_order "id-1" "pending"]
  = (<[0%nat := set_status (stored_order "id-1" "pending") "cancelled"
                  "2024-01-02T00:00:00.000Z"]> [stored_order "id-1" "pending"],
     mkResponse 200
       (OrderBody (set_status (stored_order "id-1" "pending") "cancelled"
                     "2024-01-02T00:00:00.000Z"))).
Proof.
  split; [reflexivity|].
  exact (proj1 (cancel_only_pending_or_confirmed "2024-01-02T00:00:00.000Z" "id-1"
                  [stored_order "id-1" "pending"])
           0%nat (stored_order "id-1" "pending") eq_refl (or_introl eq_refl)).
Defined.

(** The statement for C5 applied to the request of two units at 29.99 and
    one unit at 49.99. *)
Lemma total_is_sum_rounded_to_cents_witness :
  code (snd (post_order first_env scenario_A [])) = 201%Z /\
  exists o y r,
    post_order first_env scenario_A [] = (([] ++ [o])%list, mkResponse 201 (OrderBody o)) /\
    status o = "pending" /\
    get_prop scenario_A "items" = Some (JArr (items o)) /\
    y = IEEE.fmul (items_sum (items o)) (IEEE.of_Q 100) /\
    total o = IEEE.fdiv r (IEEE.of_Q 100) /\
    match IEEE.value y with
    | Some v =>
        exists (k : Z) (w : Q),
          IEEE.value r = Some w /\ (w == inject_Z k)%Q /\
          (inject_Z k - (1 # 2) <= v)%Q /\ (v < inject_Z k + (1 # 2))%Q
    | None => r = y
    end.
Proof.
  split; [reflexivity|].
  exact (proj1 total_is_sum_rounded_to_cents first_env scenario_A [] eq_refl).
Defined.

(** The statement for C6 applied to an update, a creation and a cancel. *)
Lemma order_frame_preserved_witness :
  [stored_order "id-1" "pending"] !! 0%nat = Some (stored_order "id-1" "pending") /\
  exists o',
    run [UpdateStatus "2024-01-02T00:00:00.000Z" "id-1" (status_request "shipped");
         Create second_env scenario_A;
         Cancel "2024-01-03T00:00:00.000Z" "id-1"]
      [stored_order "id-1" "pending"] !! 0%nat = Some o' /\
    same_frame (stored_order "id-1" "pending") o'.
Proof.
  split; [reflexivity|].
  exact (proj1 (order_frame_preserved
                  [UpdateStatus "2024-01-02T00:00:00.000Z" "id-1" (status_request "shipped");
                   Create second_env scenario_A;
                   Cancel "2024-01-03T00:00:00.000Z" "id-1"]
                  [stored_order "id-1" "pending"] 0%nat (stored_order "id-1" "pending")
                  eq_refl)).
Defined.

End OrderFacts.

(** * Properties of the cart service *)

Module CartFacts.
Import CartService.

Lemma strict_eq_sym a b : strict_eq a b = strict_eq b a.
Proof.
  destruct a, b; simpl; try done.
  - by destruct b, b0.
  - apply eq_true_iff_eq. rewrite !Qeq_bool_iff. split; intros H; by symmetry.
  - apply String.eqb_sym.
Qed.

(** Entries whose product identifiers are position-wise the same. *)
Lemma unique_products_same_ids its its' :
  Forall2 (fun a b => productId a = productId b) its its' ->
  unique_products its -> unique_products its'.
Proof.
  intros HF Hu i j a b Ha Hb Heq.
  destruct (Forall2_lookup_r _ _ _ _ _ HF Ha) as (a0 & Ha0 & Ea).
  destruct (Forall2_lookup_r _ _ _ _ _ HF Hb) as (b0 & Hb0 & Eb).
  apply (Hu i j a0 b0); try done. by rewrite Ea, Eb.
Qed.

Lemma unique_products_set_quantity its i it q :
  its !! i = Some it -> unique_products its ->
  unique_products (<[i := set_quantity it q]> its).
Proof.
  intros Hi. apply unique_products_same_ids.
  apply Forall2_same_length_lookup_2; [by rewrite length_insert|].
  intros j a b Ha Hb. destruct (decide (i = j)) as [->|Hne].
  - rewrite list_lookup_insert_eq in Hb by (by eapply lookup_lt_Some).
    injection Hb as <-. simpl. congruence.
  - rewrite list_lookup_insert_ne in Hb by done. congruence.
Qed.

Lemma unique_products_push its pid nm pr q :
  find_item pid its = None -> unique_products its ->
  unique_products (its ++ [mkItem pid nm pr q]).
Proof.
  unfold find_item. intros Hnone Hu i j a b Ha Hb Heq.
  apply list_find_None in Hnone. rewrite Forall_forall in Hnone.
  apply lookup_app_Some in Ha as [Ha|[Hia Ha]];
    apply lookup_app_Some in Hb as [Hb|[Hjb Hb]].
  - by apply (Hu i j a b).
  - apply list_lookup_singleton_Some in Hb as [_ <-]. simpl in Heq.
    exfalso. apply (Hnone a); [by eapply list_elem_of_lookup_2|done].
  - apply list_lookup_singleton_Some in Ha as [_ <-]. simpl in Heq.
    exfalso. apply (Hnone b); [by eapply list_elem_of_lookup_2|].
    by rewrite strict_eq_sym.
  - apply list_lookup_singleton_Some in Ha as [Hi' _].
    apply list_lookup_singleton_Some in Hb as [Hj' _]. lia.
Qed.

Lemma unique_products_delete its k :
  unique_products its -> unique_products (delete k its).
Proof.
  intros Hu i j a b Ha Hb Heq.
  destruct (decide (i < k)%nat) as [Hik|Hik]; destruct (decide (j < k)%nat) as [Hjk|Hjk].
  - rewrite list_lookup_delete_lt in Ha, Hb by done. by apply (Hu i j a b).
  - rewrite list_lookup_delete_lt in Ha by done. rewrite list_lookup_delete_ge in Hb by lia.
    pose proof (Hu i (S j) a b Ha Hb Heq). lia.
  - rewrite list_lookup_delete_ge in Ha by lia. rewrite list_lookup_delete_lt in Hb by done.
    pose proof (Hu (S i) j a b Ha Hb Heq). lia.
  - rewrite list_lookup_delete_ge in Ha, Hb by lia.
    pose proof (Hu (S i) (S j) a b Ha Hb Heq). lia.
Qed.

Lemma unique_products_nil : unique_products [].
Proof. intros i j a b Ha. done. Qed.

Lemma carts_ok_insert carts u its :
  carts_ok carts -> unique_products its -> carts_ok (<[u := its]> carts).
Proof.
  intros Hok Hu v its' Hv. destruct (decide (u = v)) as [->|Hne].
  - rewrite lookup_insert_eq in Hv. by injection Hv as <-.
  - rewrite lookup_insert_ne in Hv by done. by eapply Hok.
Qed.

Lemma getCart_ok u carts :
  carts_ok carts ->
  carts_ok (fst (getCart u carts)) /\ unique_products (snd (getCart u carts)).
Proof.
  intros Hok. unfold getCart. destruct (carts !! u) as [its|] eqn:Hu; simpl.
  - split; [done|by eapply Hok].
  - split; [apply carts_ok_insert; [done|]|]; apply unique_products_nil.
Qed.

Lemma find_item_Some pid its i it :
  find_item pid its = Some (i, it) ->
  its !! i = Some it /\ strict_eq (productId it) pid = true.
Proof. unfold find_item. intros H. apply list_find_Some in H. tauto. Qed.

Section Runtime.

Variable StringToNumber : string -> number.
Variable NumberToString : number -> string.

(** The three ways the part of an addition that follows [getCart] can
    end: a conversion throws, the product is found, the product is new. *)
Lemma add_to_cart_cases u pid nm pr qty carts1 its :
  error_handler carts1 (add_to_cart StringToNumber NumberToString u pid nm pr qty carts1 its)
  = (carts1, json_error 500 "Internal server error") \/
  (exists i existing q,
     find_item pid its = Some (i, existing) /\
     js_plus StringToNumber NumberToString (quantity existing) qty = Some q /\
     error_handler carts1
       (add_to_cart StringToNumber NumberToString u pid nm pr qty carts1 its)
     = (<[u := <[i := set_quantity existing q]> its]> carts1,
        mkResponse 200 (CartBody u (<[i := set_quantity existing q]> its)))) \/
  (exists p q,
     find_item pid its = None /\
     Number StringToNumber NumberToString pr = Some p /\
     Number StringToNumber NumberToString qty = Some q /\
     error_handler carts1
       (add_to_cart StringToNumber NumberToString u pid nm pr qty carts1 its)
     = (<[u := (its ++ [mkItem pid nm p (RNum q)])%list]> carts1,
        mkResponse 201 (CartBody u (its ++ [mkItem pid nm p (RNum q)])%list))).
Proof.
  unfold add_to_cart.
  destruct (find_item pid its) as [[i existing]|] eqn:Hf.
  - destruct (js_plus StringToNumber NumberToString (quantity existing) qty) as [q|] eqn:Hq;
      simpl; [|by left].
    right. left. by exists i, existing, q.
  - destruct (Number StringToNumber NumberToString pr) as [p|] eqn:Hp; simpl; [|by left].
    destruct (Number StringToNumber NumberToString qty) as [q|] eqn:Hq; simpl; [|by left].
    right. right. by exists p, q.
Qed.

(** The ways the part of an update that follows [getCart] can end. *)
Lemma update_in_cart_cases u pid qty carts1 its :
  error_handler carts1 (update_in_cart StringToNumber NumberToString u pid qty carts1 its)
  = (carts1, json_error 500 "Internal server error") \/
  (find_item (JStr pid) its = None /\
   error_handler carts1 (update_in_cart StringToNumber NumberToString u pid qty carts1 its)
   = (carts1, json_error 404 "Item not found in cart")) \/
  (exists i it q,
     find_item (JStr pid) its = Some (i, it) /\
     Number StringToNumber NumberToString qty = Some q /\
     error_handler carts1 (update_in_cart StringToNumber NumberToString u pid qty carts1 its)
     = (<[u := <[i := set_quantity it (RNum q)]> its]> carts1,
        mkResponse 200 (CartBody u (<[i := set_quantity it (RNum q)]> its)))).
Proof.
  unfold update_in_cart.
  destruct (find_item (JStr pid) its) as [[i it]|] eqn:Hf.
  - destruct (Number StringToNumber NumberToString qty) as [q|] eqn:Hq; simpl; [|by left].
    right. right. by exists i, it, q.
  - right. left. done.
Qed.

Lemma handle_ok rq carts :
  carts_ok carts -> carts_ok (fst (handle StringToNumber NumberToString rq carts)).
Proof.
  intros Hok. destruct rq as [u b|u p b|u p|u|u]; simpl.
  - unfold CartService.post_item, add_body, prop.
    destruct (get_prop b "productId") as [pid|]; cbn [bind]; [|done].
    destruct (get_prop b "name") as [nm|]; cbn [bind]; [|done].
    destruct (get_prop b "price") as [pr|]; cbn [bind]; [|done].
    destruct (get_prop b "quantity") as [qty|]; cbn [bind]; [|done].
    destruct (truthy pid && truthy nm && negb (nullish pr) && negb (nullish qty)); [|done].
    destruct (getCart_ok u carts Hok) as [Hc1 Hits].
    destruct (getCart u carts) as [carts1 its]. simpl in Hc1, Hits.
    cbn [error_handler].
    destruct (add_to_cart_cases u pid nm pr qty carts1 its)
      as [->|[(i & existing & q & Hf & _ & ->)|(p & q & Hf & _ & _ & ->)]]; simpl.
    + done.
    + apply carts_ok_insert; [done|].
      apply find_item_Some in Hf as [Hi _]. by apply unique_products_set_quantity.
    + apply carts_ok_insert; [done|]. by apply unique_products_push.
  - unfold put_item, update_body, prop.
    destruct (get_prop b "quantity") as [qty|]; cbn [bind]; [|done].
    destruct (negb (nullish qty)); [|done].
    destruct (getCart_ok u carts Hok) as [Hc1 Hits].
    destruct (getCart u carts) as [carts1 its]. simpl in Hc1, Hits.
    cbn [error_handler].
    destruct (update_in_cart_cases u p qty carts1 its)
      as [->|[[_ ->]|(i & it & q & Hf & _ & ->)]]; simpl; try done.
    apply carts_ok_insert; [done|].
    apply find_item_Some in Hf as [Hi _]. by apply unique_products_set_quantity.
  - unfold delete_item.
    destruct (getCart_ok u carts Hok) as [Hc1 Hits].
    destruct (getCart u carts) as [carts1 its]. simpl in Hc1, Hits.
    destruct (find_item (JStr p) its) as [[i it]|] eqn:Hf; simpl; [|done].
    apply carts_ok_insert; [done|]. by apply unique_products_delete.
  - intros v its Hv. destruct (decide (u = v)) as [->|Hne].
    + by rewrite lookup_delete_eq in Hv.
    + rewrite lookup_delete_ne in Hv by done. by eapply Hok.
  - unfold get_cart.
    destruct (getCart_ok u carts Hok) as [Hc1 Hits].
    by destruct (getCart u carts) as [carts1 its].
Qed.

(** The invariant part of C9: along every sequence of cart operations
    every cart holds at most one entry per product identifier. *)
Lemma run_unique_products rqs carts :
  carts_ok carts -> carts_ok (run StringToNumber NumberToString rqs carts).
Proof.
  revert carts. induction rqs as [|rq rest IH]; intros carts Hok; simpl; [done|].
  apply IH. by apply handle_ok.
Qed.

Lemma empty_carts_ok : carts_ok ∅.
Proof. intros u its Hu. by rewrite lookup_empty in Hu. Qed.

(** The increment part of C9 where it holds: adding a number to an entry
    whose quantity is a number adds the two, and appends nothing. *)
Lemma add_existing_number_increments u b carts its pid nm pr q i existing n :
  carts !! u = Some its ->
  get_prop b "productId" = Some pid -> get_prop b "name" = Some nm ->
  get_prop b "price" = Some pr -> get_prop b "quantity" = Some (JNum q) ->
  truthy pid = true -> truthy nm = true -> nullish pr = false ->
  find_item pid its = Some (i, existing) ->
  quantity existing = RNum (Fin n) ->
  post_item StringToNumber NumberToString u b carts
  = (<[u := <[i := set_quantity existing (RNum (Fin (n + q)))]> its]> carts,
     mkResponse 200
       (CartBody u (<[i := set_quantity existing (RNum (Fin (n + q)))]> its))).
Proof.
  intros Hu Hpid Hnm Hpr Hq Tp Tn Np Hf Hn.
  unfold CartService.post_item, add_body, prop.
  rewrite Hpid, Hnm, Hpr, Hq. cbn [bind]. rewrite Tp, Tn, Np. simpl.
  unfold getCart. rewrite Hu. unfold add_to_cart. rewrite Hf, Hn. reflexivity.
Qed.

(** C9, what the code does on the failing input: after an entry with
    quantity 2, adding the same product with the quantity given as the
    text 3 leaves one entry whose quantity is the text made of the
    printed 2 followed by 3, not the number 5. *)
Theorem add_text_quantity_concatenates :
  snd (post_item StringToNumber NumberToString "user-1"
         (Examples.cart_request "sku-1" (JStr "3"))
         (fst (post_item StringToNumber NumberToString "user-1"
                 (Examples.cart_request "sku-1" (JNum 2)) ∅)))
  = mkResponse 200
      (CartBody "user-1"
         [mkItem (JStr "sku-1") (JStr "item") (Fin (1999 # 100))
            (RStr (NumberToString (Fin 2) ++ "3"))]).
Proof. vm_compute. reflexivity. Qed.

End Runtime.

End CartFacts.

(** * Properties of the user service *)

Module UserFacts.
Import UserService.

Lemma safeUser_low u1 u2 : same_but_password u1 u2 -> safeUser u1 = safeUser u2.
Proof.
  destruct u1, u2. unfold same_but_password, safeUser. simpl.
  intros (-> & -> & -> & ->). reflexivity.
Qed.

Lemma same_but_password_refl u : same_but_password u u.
Proof. by repeat split. Qed.

(** [safeUser] is the user object without its [password] property, and
    it has no property of that name. *)
Lemma safeUser_is_rest u :
  safe_object (safeUser u) = rest_without "password" (user_object u) /\
  assoc "password" (safe_object (safeUser u)) = JUndefined /\
  has_own "password" (safe_object (safeUser u)) = false.
Proof. split_and!; reflexivity. Qed.

(** A search that does not look at passwords finds the same position in
    two lists of users that differ at most in passwords. *)
Lemma list_find_low (P : user -> Prop) `{!forall u, Decision (P u)} us1 us2 :
  (forall u1 u2, same_but_password u1 u2 -> P u1 <-> P u2) ->
  Forall2 same_but_password us1 us2 ->
  match list_find P us1, list_find P us2 with
  | Some (i, u1), Some (j, u2) => i = j /\ same_but_password u1 u2
  | None, None => True
  | _, _ => False
  end.
Proof.
  intros HP HF. induction HF as [|u1 u2 r1 r2 Hu HF IH]; simpl; [done|].
  destruct (decide (P u1)) as [H1|H1]; destruct (decide (P u2)) as [H2|H2].
  - done.
  - destruct H2. by apply (HP u1 u2).
  - destruct H1. by apply (HP u1 u2).
  - destruct (list_find P r1) as [[i a]|], (list_find P r2) as [[j b]|]; simpl; try done.
    destruct IH as [-> ?]. done.
Qed.

(** The checks of a registration do not look at stored passwords. *)
Lemma register_arrives_low b s1 s2 :
  low_equiv s1 s2 -> register_arrives b s1 = register_arrives b s2.
Proof.
  intros [Hid HF]. unfold register_arrives, register_checks, prop.
  destruct (get_prop b "username") as [usr|]; cbn [bind]; [|done].
  destruct (get_prop b "email") as [eml|]; cbn [bind]; [|done].
  destruct (get_prop b "password") as [pwd|]; cbn [bind]; [|done].
  destruct (truthy usr && truthy eml && truthy pwd); [|done].
  pose proof (list_find_low (fun u => strict_eq (email u) eml = true)
                (users s1) (users s2)) as Hfind.
  destruct (list_find _ (users s1)) as [[i u1]|], (list_find _ (users s2)) as [[j u2]|];
    simpl; try done.
  - exfalso. apply Hfind; [|done]. intros a c (_ & _ & -> & _). done.
  - exfalso. apply Hfind; [|done]. intros a c (_ & _ & -> & _). done.
Qed.

Section Runtime.

Variable parseInt10 : string -> option Z.

Lemma get_user_low p s1 s2 :
  low_equiv s1 s2 ->
  snd (get_user parseInt10 p s1) = snd (get_user parseInt10 p s2) /\
  low_equiv (fst (get_user parseInt10 p s1)) (fst (get_user parseInt10 p s2)).
Proof.
  intros [Hid HF]. unfold get_user. destruct (parseInt10 p) as [n|]; [|done].
  pose proof (list_find_low (fun u => id u = n) (users s1) (users s2)) as Hfind.
  destruct (list_find _ (users s1)) as [[i u1]|], (list_find _ (users s2)) as [[j u2]|];
    simpl; try done.
  - destruct Hfind as [_ Hu]; [|done|].
    + intros a c (-> & _). done.
    + by rewrite (safeUser_low _ _ Hu).
  - exfalso. apply Hfind; [|done]. intros a c (-> & _). done.
  - exfalso. apply Hfind; [|done]. intros a c (-> & _). done.
Qed.

Lemma list_users_low s1 s2 :
  low_equiv s1 s2 -> snd (list_users s1) = snd (list_users s2).
Proof.
  intros [Hid HF]. unfold list_users. simpl. do 2 f_equal.
  induction HF as [|u1 u2 r1 r2 Hu HF IH]; simpl; [done|].
  by rewrite (safeUser_low _ _ Hu), IH.
Qed.

(** The second piece of a registration puts out the same reply whatever
    the hash is, and stores the hash only. *)
Lemma register_resumes_low now usr eml hashed1 hashed2 s1 s2 :
  low_equiv s1 s2 ->
  hashes_alike hashed1 hashed2 ->
  snd (register_resumes now usr eml hashed1 s1)
  = snd (register_resumes now usr eml hashed2 s2) /\
  low_equiv (fst (register_resumes now usr eml hashed1 s1))
            (fst (register_resumes now usr eml hashed2 s2)).
Proof.
  intros [Hid HF] Hh. unfold register_resumes.
  destruct hashed1 as [h1|msg1], hashed2 as [h2|msg2]; try done; simpl.
  - rewrite Hid. split; [done|]. split; [done|]. simpl.
    apply Forall2_app; [done|]. constructor; [|done]. by repeat split.
  - unfold hashes_alike in Hh. subst. split; [done|]. by split.
Qed.

Lemma do_step_low t1 t2 s1 s2 :
  low_equiv s1 s2 -> alike t1 t2 ->
  snd (do_step parseInt10 t1 s1) = snd (do_step parseInt10 t2 s2) /\
  low_equiv (fst (do_step parseInt10 t1 s1)) (fst (do_step parseInt10 t2 s2)).
Proof.
  intros Hlow Ha.
  destruct t1 as [b1|now1 usr1 eml1 hashed1|p1|];
    destruct t2 as [b2|now2 usr2 eml2 hashed2|p2|]; simpl in Ha; try discriminate Ha.
  - injection Ha as <-. simpl. split; [by apply register_arrives_low|done].
  - destruct Ha as (<- & <- & <- & Hh). simpl.
    destruct (register_resumes_low now1 usr1 eml1 hashed1 hashed2 s1 s2 Hlow Hh) as [E L].
    by rewrite E.
  - injection Ha as <-. simpl.
    destruct (get_user_low p1 s1 s2 Hlow) as [E L]. by rewrite E.
  - cbn [do_step fst snd]. rewrite (list_users_low s1 s2 Hlow). done.
Qed.

(** C10. The replies of register, get-user-by-id and list-users do not
    depend on password hashes, neither on the stored ones nor on the one
    a registration is about to store: take two stores that differ at most
    in the [password] field of their users, and run on each the same
    pieces of handlers, in the same order, the hashes that [bcrypt] hands
    to the registrations being any two hashes; then every piece puts out
    the same reply (status code and body) on both sides, and the two
    stores again differ at most in stored passwords. This holds for every
    way the handlers overlap. The bodies are built from [safeUser], the
    user object without its [password] property ([safeUser_is_rest]). *)
Theorem replies_independent_of_passwords :
  forall (ts1 ts2 : list step) (s1 s2 : state),
    low_equiv s1 s2 ->
    Forall2 alike ts1 ts2 ->
    snd (run_steps parseInt10 ts1 s1) = snd (run_steps parseInt10 ts2 s2) /\
    low_equiv (fst (run_steps parseInt10 ts1 s1)) (fst (run_steps parseInt10 ts2 s2)).
Proof.
  intros ts1 ts2 s1 s2 Hlow HF. revert s1 s2 Hlow.
  induction HF as [|t1 t2 r1 r2 Ha HF IH]; intros s1 s2 Hlow; simpl; [done|].
  destruct (do_step_low t1 t2 s1 s2 Hlow Ha) as [E L].
  destruct (do_step parseInt10 t1 s1) as [s1' o1].
  destruct (do_step parseInt10 t2 s2) as [s2' o2]. simpl in E, L. subst o2.
  destruct (IH s1' s2' L) as [E' L'].
  destruct (run_steps parseInt10 r1 s1') as [s1'' os1].
  destruct (run_steps parseInt10 r2 s2') as [s2'' os2]. simpl in *. by subst.
Qed.

End Runtime.

(** The statement for C10 applied to two stores that hold the same user
    under two different hashes, and to a registration that is handed two
    different hashes, followed by a retrieval and a listing. *)
Lemma replies_independent_of_passwords_witness :
  low_equiv (Examples.user_state "$2a$10$first") (Examples.user_state "$2a$10$second") /\
  Forall2 alike
    [RegisterArrives (UserMore.credentials "bob@example.com" "secret");
     HashSettles "2024-01-02T00:00:00.000Z" (JStr "bob") (JStr "bob@example.com")
       (inl "$2a$10$third");
     GetUserArrives "2"; ListUsersArrives]
    [RegisterArrives (UserMore.credentials "bob@example.com" "secret");
     HashSettles "2024-01-02T00:00:00.000Z" (JStr "bob") (JStr "bob@example.com")
       (inl "$2a$10$fourth");
     GetUserArrives "2"; ListUsersArrives] /\
  snd (run_steps Examples.demo_parseInt
         [RegisterArrives (UserMore.credentials "bob@example.com" "secret");
          HashSettles "2024-01-02T00:00:00.000Z" (JStr "bob") (JStr "bob@example.com")
            (inl "$2a$10$third");
          GetUserArrives "2"; ListUsersArrives]
         (Examples.user_state "$2a$10$first"))
  = snd (run_steps Examples.demo_parseInt
           [RegisterArrives (UserMore.credentials "bob@example.com" "secret");
            HashSettles "2024-01-02T00:00:00.000Z" (JStr "bob") (JStr "bob@example.com")
              (inl "$2a$10$fourth");
            GetUserArrives "2"; ListUsersArrives]
           (Examples.user_state "$2a$10$second")).
Proof.
  assert (low_equiv (Examples.user_state "$2a$10$first")
            (Examples.user_state "$2a$10$second")) as H.
  { split; [reflexivity|]. constructor; [|constructor]. by repeat split. }
  assert (Forall2 alike
    [RegisterArrives (UserMore.credentials "bob@example.com" "secret");
     HashSettles "2024-01-02T00:00:00.000Z" (JStr "bob") (JStr "bob@example.com")
       (inl "$2a$10$third");
     GetUserArrives "2"; ListUsersArrives]
    [RegisterArrives (UserMore.credentials "bob@example.com" "secret");
     HashSettles "2024-01-02T00:00:00.000Z" (JStr "bob") (JStr "bob@example.com")
       (inl "$2a$10$fourth");
     GetUserArrives "2"; ListUsersArrives]) as HA.
  { repeat constructor. }
  split; [exact H|]. split; [exact HA|].
  exact (proj1 (replies_independent_of_passwords Examples.demo_parseInt _ _ _ _ H HA)).
Defined.

End UserFacts.

(** * Properties of the queue and retry policies *)

Module QueueFacts.
Import IngestionQueue.

Lemma receives_not_visible max attempts s :
  (forall n, msg s <> Visible n) -> receives max attempts s = s.
Proof.
  revert s. induction attempts as [|a rest IH]; intros s Hs; simpl; [done|].
  assert (receive max a s = s) as ->; [|by apply IH].
  unfold receive. destruct (msg s) as [n| |] eqn:E; try done. by destruct (Hs n).
Qed.

Lemma last_cons_default {A} (a s : A) l :
  default s (last (a :: l)) = default a (last l).
Proof. rewrite last_cons. by destruct (last l). Qed.

Lemma receive_visible max a k s :
  receive max a (mkQ (Visible k) s)
  = if (max <? S k)%nat then mkQ (Quarantined (S k)) s
    else mkQ (if terminal a then Deleted else Visible (S k)) a.
Proof. reflexivity. Qed.

Lemma receives_from max attempts k s :
  (k <= max)%nat ->
  (is_quarantined (receives max attempts (mkQ (Visible k) s)) = true <->
   (max - k < length attempts)%nat /\
   Forall (fun a => terminal a = false) (take (max - k) attempts)) /\
  (is_quarantined (receives max attempts (mkQ (Visible k) s)) = true ->
   order_status (receives max attempts (mkQ (Visible k) s))
   = default s (last (take (max - k) attempts))).
Proof.
  revert k s. induction attempts as [|a rest IH]; intros k s Hk.
  - simpl. split; [|done]. split; [done|]. intros [? _]. lia.
  - cbn [receives]. rewrite receive_visible.
    destruct (max <? S k)%nat eqn:Hlt.
    + apply Nat.ltb_lt in Hlt. assert (max - k = 0)%nat as -> by lia.
      rewrite receives_not_visible by done. simpl. split; [|done].
      split; [|done]. intros _. split; [lia|constructor].
    + apply Nat.ltb_ge in Hlt.
      assert (max - k = S (max - S k))%nat as -> by lia. cbn [take length].
      destruct (terminal a) eqn:Ht.
      * rewrite receives_not_visible by done. simpl. split; [|done].
        split; [done|]. intros [_ HF]. inversion HF; congruence.
      * destruct (IH (S k) a ltac:(lia)) as [IH1 IH2]. split.
        -- rewrite IH1. rewrite Forall_cons. split.
           ++ intros [? ?]. split; [lia|done].
           ++ intros [? [_ ?]]. split; [lia|done].
        -- intros Hq. rewrite (IH2 Hq). by rewrite last_cons_default.
Qed.

(** C7. A message is moved to the dead-letter quarantine if and only if
    it has been received more than [maxReceiveCount] times and none of the
    deliveries that were processed brought the order to a terminal status;
    the quarantined message leaves the order in the status of the last
    processed delivery. With the configured bound of 3, a fourth receive of
    a message whose order is still PENDING quarantines it and the order
    stays PENDING. *)
Theorem quarantined_iff_redelivery_exhausted :
  forall (max : nat) (attempts : list string) (s0 : string),
    (is_quarantined (receives max attempts (mkQ (Visible 0) s0)) = true <->
     (max < length attempts)%nat /\
     Forall (fun a => terminal a = false) (take max attempts)) /\
    (is_quarantined (receives max attempts (mkQ (Visible 0) s0)) = true ->
     order_status (receives max attempts (mkQ (Visible 0) s0))
     = default s0 (last (take max attempts))) /\
    receives maxReceiveCount ["PENDING"; "PENDING"; "PENDING"; "PROCESSING"]
      (mkQ (Visible 0) "PENDING")
    = mkQ (Quarantined 4) "PENDING".
Proof.
  intros max attempts s0.
  destruct (receives_from max attempts 0 s0 ltac:(lia)) as [H1 H2].
  rewrite Nat.sub_0_r in H1, H2. split_and!; try done.
Qed.

End QueueFacts.

Module RetryFacts.
Import Retry.

Lemma attempt_from_spec p capability n retries_left :
  (length (snd (attempt_from p capability n retries_left)) <= retries_left)%nat /\
  (forall k d, snd (attempt_from p capability n retries_left) !! k = Some d ->
     d = delay p (n + k) /\ capability (n + k)%nat = TransientFailure).
Proof.
  revert n. induction retries_left as [|r IH]; intros n; simpl.
  - destruct (capability n); simpl; split; try lia; intros k d Hk; done.
  - destruct (capability n) eqn:Hc; simpl; try (split; [lia|intros k d Hk; done]).
    destruct (IH (S n)) as [Hlen Hd].
    destruct (attempt_from p capability (S n) r) as [e ds]. simpl in *.
    split; [lia|]. intros [|k] d Hk; simpl in Hk.
    + injection Hk as <-. by rewrite Nat.add_0_r.
    + destruct (Hd k d Hk) as [-> Ht]. by rewrite <- Nat.add_succ_comm.
Qed.

(** While the invocations fail transiently and retries are left, each
    failure is followed by the delay of its retry and by the next
    invocation. *)
Lemma attempt_from_retries p capability m :
  forall n retries_left,
    (m <= retries_left)%nat ->
    (forall k, (k < m)%nat -> capability (n + k)%nat = TransientFailure) ->
    attempt_from p capability n retries_left
    = (fst (attempt_from p capability (n + m) (retries_left - m)),
       ((delay p <$> seq n m)
        ++ snd (attempt_from p capability (n + m) (retries_left - m)))%list).
Proof.
  induction m as [|m IH]; intros n r Hle Ht.
  - rewrite Nat.add_0_r, Nat.sub_0_r. simpl. by destruct (attempt_from p capability n r).
  - destruct r as [|r]; [lia|].
    pose proof (Ht 0%nat ltac:(lia)) as H0. rewrite Nat.add_0_r in H0.
    simpl. rewrite H0.
    rewrite (IH (S n) r) by (try lia; intros k Hk; rewrite Nat.add_succ_comm; apply Ht; lia).
    rewrite Nat.add_succ_comm. done.
Qed.

(** What a step does is determined by the invocation that ends the run
    of transient failures. *)
Lemma attempt_from_outcome p capability retries n :
  (n <= retries)%nat ->
  (forall k, (k < n)%nat -> capability k = TransientFailure) ->
  attempt_from p capability 0 retries
  = (match capability n with
     | Success => SuccessEdge
     | PermanentFailure => FailureEdge
     | TransientFailure =>
         if (n <? retries)%nat
         then fst (attempt_from p capability (S n) (retries - S n))
         else FailureEdge
     end,
     match capability n with
     | TransientFailure =>
         if (n <? retries)%nat
         then ((delay p <$> seq 0 (S n))
               ++ snd (attempt_from p capability (S n) (retries - S n)))%list
         else delay p <$> seq 0 n
     | _ => delay p <$> seq 0 n
     end).
Proof.
  intros Hle Ht.
  destruct (capability n) eqn:Hc.
  - rewrite (attempt_from_retries p capability n 0 retries Hle Ht), Nat.add_0_l.
    destruct (retries - n)%nat; simpl; rewrite Hc; simpl; by rewrite app_nil_r.
  - rewrite (attempt_from_retries p capability n 0 retries Hle Ht), Nat.add_0_l.
    destruct (retries - n)%nat; simpl; rewrite Hc; simpl; by rewrite app_nil_r.
  - destruct (n <? retries)%nat eqn:Hlt.
    + apply Nat.ltb_lt in Hlt.
      rewrite (attempt_from_retries p capability (S n) 0 retries); [done|lia|].
      intros k Hk. simpl. destruct (decide (k = n)) as [->|]; [done|]. apply Ht. lia.
    + apply Nat.ltb_ge in Hlt. assert (n = retries) as E by lia. subst n.
      rewrite (attempt_from_retries p capability retries 0 retries Hle Ht), Nat.add_0_l.
      rewrite Nat.sub_diag. simpl. rewrite Hc. simpl. by rewrite app_nil_r.
Qed.

(** C8. A capability step that fails transiently is retried, and at most
    [maxAttempts] = 3 times: as long as the invocations fail transiently
    and fewer than [maxAttempts] retries were made, the step waits the
    delay of the next retry and invokes the capability again; the delay
    before retry [n], counted from zero, is
    [intervalSeconds × backoffRate^n] and nothing else is waited. The
    step takes the success edge at the first success, the failure edge at
    the first permanent failure, and the failure edge after the transient
    failure of the invocation that follows the last retry. With the
    interval of 2 seconds and the rate of 2 the delays are 2, 4 and 8
    seconds: a step that keeps failing transiently waits exactly these
    and takes the failure edge, and a step that times out twice and then
    succeeds waits 2 and 4 seconds and takes the success edge. *)
Theorem retry_delays_follow_backoff :
  forall (s : step) (capability : nat -> outcome),
    (length (snd (run_step s capability)) <= maxAttempts (step_policy s))%nat /\
    maxAttempts (step_policy s) = 3%nat /\
    (forall n d, snd (run_step s capability) !! n = Some d ->
       d = delay (step_policy s) n /\ capability n = TransientFailure) /\
    (forall n, (n < maxAttempts (step_policy s))%nat ->
       (forall k, (k <= n)%nat -> capability k = TransientFailure) ->
       snd (run_step s capability) !! n = Some (delay (step_policy s) n)) /\
    (forall n, (n <= maxAttempts (step_policy s))%nat ->
       (forall k, (k < n)%nat -> capability k = TransientFailure) ->
       capability n = Success ->
       run_step s capability = (SuccessEdge, delay (step_policy s) <$> seq 0 n)) /\
    (forall n, (n <= maxAttempts (step_policy s))%nat ->
       (forall k, (k < n)%nat -> capability k = TransientFailure) ->
       capability n = PermanentFailure ->
       run_step s capability = (FailureEdge, delay (step_policy s) <$> seq 0 n)) /\
    ((forall k, (k <= maxAttempts (step_policy s))%nat -> capability k = TransientFailure) ->
     run_step s capability
     = (FailureEdge, delay (step_policy s) <$> seq 0 (maxAttempts (step_policy s)))) /\
    Forall2 Qeq (delay (step_policy s) <$> [0; 1; 2]%nat) [2; 4; 8]%Q /\
    run_step s (fun _ => TransientFailure)
    = (FailureEdge, delay (step_policy s) <$> [0; 1; 2]%nat) /\
    run_step s two_timeouts_then_success
    = (SuccessEdge, delay (step_policy s) <$> [0; 1]%nat).
Proof.
  intros s capability.
  destruct (attempt_from_spec (step_policy s) capability 0 (maxAttempts (step_policy s)))
    as [Hlen Hd].
  pose proof (attempt_from_outcome (step_policy s) capability (maxAttempts (step_policy s)))
    as Hout.
  fold (run_step s capability) in Hlen, Hd, Hout.
  split_and!; try done.
  - intros n Hn Ht.
    rewrite (Hout n) by (try lia; intros k Hk; apply Ht; lia).
    rewrite (Ht n) by lia. apply Nat.ltb_lt in Hn. rewrite Hn.
    cbn [snd]. rewrite lookup_app_l by (rewrite length_fmap, length_seq; lia).
    rewrite list_lookup_fmap, lookup_seq_lt by lia. done.
  - intros n Hn Ht Hc. rewrite (Hout n Hn Ht). by rewrite Hc.
  - intros n Hn Ht Hc. rewrite (Hout n Hn Ht). by rewrite Hc.
  - intros Ht.
    rewrite (Hout (maxAttempts (step_policy s))) by (try lia; intros k Hk; apply Ht; lia).
    rewrite (Ht (maxAttempts (step_policy s))) by lia. by rewrite Nat.ltb_irrefl.
Qed.

End RetryFacts.

(** * Further properties of the order service *)

Module OrderMoreFacts.
Import OrderService OrderProps OrderMore OrderFacts.

Lemma Qltb_false a b : Qltb a b = false <-> (b <= a)%Q.
Proof. unfold Qltb. rewrite negb_false_iff. apply Qle_bool_iff. Qed.

Lemma Qltb_true a b : Qltb a b = true <-> (a < b)%Q.
Proof.
  unfold Qltb. rewrite negb_true_iff, <- not_true_iff_false, Qle_bool_iff.
  split; [apply Qnot_le_lt|apply Qlt_not_le].
Qed.

Lemma price_accepted v :
  price_rejected v = false <-> exists p, v = JNum p /\ (0 <= p)%Q.
Proof.
  destruct v; simpl; try (split; [done|intros (p & ? & _); done]).
  rewrite Qltb_false. split; [eauto|]. by intros (p & [= <-] & ?).
Qed.

Lemma quantity_accepted v :
  quantity_rejected v = false <->
  exists q, v = JNum q /\ is_integer q = true /\ (1 <= q)%Q.
Proof.
  destruct v; simpl; try (split; [done|intros (p & ? & _); done]).
  rewrite orb_false_iff, negb_false_iff, Qltb_false.
  split; [intros []; eauto|]. by intros (p & [= <-] & ? & ?).
Qed.

Lemma validate_item_valid item :
  validate_item item = Continue tt <-> item_valid item.
Proof.
  unfold validate_item, item_valid, prop. split.
  - destruct (get_prop item "productId") as [pid|]; cbn [bind]; [|done].
    destruct (truthy pid) eqn:Tp; [|done].
    destruct (get_prop item "name") as [nm|]; cbn [bind]; [|done].
    destruct (truthy nm) eqn:Tn; [|done].
    destruct (get_prop item "price") as [pr|]; cbn [bind]; [|done].
    destruct (nullish pr); simpl; [done|].
    destruct (get_prop item "quantity") as [qt|]; cbn [bind]; [|done].
    destruct (nullish qt); simpl; [done|].
    destruct (price_rejected pr) eqn:Hp; simpl; [done|].
    destruct (quantity_rejected qt) eqn:Hq; simpl; [done|].
    intros _. apply price_accepted in Hp as (p & -> & ?).
    apply quantity_accepted in Hq as (q & -> & ? & ?).
    exists pid, nm, p, q. done.
  - intros (pid & nm & p & q & Hpid & Tp & Hnm & Tn & Hpr & Hp & Hqt & Hi & Hq).
    rewrite Hpid, Hnm, Hpr, Hqt. cbn [bind]. rewrite Tp, Tn. cbn [nullish negb].
    assert (price_rejected (JNum p) = false) as -> by (apply price_accepted; eauto).
    assert (quantity_rejected (JNum q) = false) as -> by (apply quantity_accepted; eauto).
    reflexivity.
Qed.

Lemma validate_items_valid its :
  validate_items its = Continue tt <-> Forall item_valid its.
Proof.
  induction its as [|item rest IH]; simpl; [done|].
  rewrite Forall_cons, <- IH, <- validate_item_valid.
  destruct (validate_item item) as [[]| |]; cbn [bind]; split; try done.
  - by intros [? ?].
  - by intros [? ?].
  - by intros [? ?].
Qed.

(** After the validation loop the reduction meets numbers only. *)
Lemma validate_items_amounts its acc :
  Forall item_valid its -> exists t, reduce_total its acc = Continue t.
Proof.
  intros HF. revert acc. induction HF as [|item rest Hv HF IH]; intros acc; simpl; [eauto|].
  destruct Hv as (pid & nm & p & q & _ & _ & _ & _ & Hp & _ & Hq & _).
  unfold item_amount, prop. rewrite Hp, Hq. cbn [bind]. apply IH.
Qed.

Lemma create_body_accepts e b orders :
  (exists r, create_body e b orders = Continue r) <-> request_valid b.
Proof.
  unfold create_body, request_valid, destructure, prop. split.
  - intros [r Hr]. revert Hr.
    destruct (get_prop b "userId") as [uid|]; cbn [bind]; [|done].
    destruct (get_prop b "items") as [its|]; cbn [bind]; [|done].
    destruct (get_prop b "shippingAddress") as [sh|]; cbn [bind]; [|done].
    destruct (truthy uid) eqn:Tu; [|done].
    destruct its as [| | | | |[|item rest]|]; try done.
    destruct (truthy sh) eqn:Ts; [|done].
    destruct (validate_items (item :: rest)) as [[]| |] eqn:Hv; cbn [bind]; try done.
    intros _. exists uid, (item :: rest), sh. split_and!; try done.
    by apply validate_items_valid.
  - intros (uid & its & sh & Hu & Tu & Hi & Hne & Hs & Ts & HF).
    rewrite Hu, Hi, Hs. cbn [bind]. rewrite Tu.
    destruct its as [|item rest]; [done|]. rewrite Ts.
    pose proof (proj2 (validate_items_valid _) HF) as ->. cbn [bind].
    destruct (validate_items_amounts _ IEEE.zero HF) as [t ->]. cbn [bind]. eauto.
Qed.


Lemma order_wf_set_status o st now : order_wf o -> order_wf (set_status o st now).
Proof. done. Qed.

Lemma handle_wf rq orders :
  Forall order_wf orders -> Forall order_wf (fst (handle rq orders)).
Proof.
  intros Hall. destruct rq as [e b|oid|uid|now oid b|now oid]; simpl.
  - unfold post_order. destruct (create_body e b orders) as [r| |] eqn:Hc; simpl; try done.
    assert (request_valid b) as (uid' & its' & sh' & Hu' & Tu & Hi' & Hne & Hs' & Ts & HF)
      by (apply (create_body_accepts e b orders); eauto).
    apply create_body_Continue in Hc
      as (uid & its & sh & t & Hu & Hi & Hs & _ & _ & Ht & ->). simpl.
    assert (uid' = uid) as -> by congruence.
    assert (its' = its) as -> by congruence.
    assert (sh' = sh) as -> by congruence.
    apply Forall_app. split; [done|]. constructor; [|done].
    unfold order_wf. simpl. split_and!; try done.
    apply reduce_total_sum in Ht. by subst t.
  - unfold get_order. by destruct (find_order oid orders) as [[]|].
  - done.
  - unfold put_status.
    destruct (update_body now oid b orders) as [r| |] eqn:Hu; simpl; try done.
    apply update_body_Continue in Hu as (s & j & oj & Hs & Hin & Hf & ->). simpl.
    apply Forall_insert; [done|]. apply order_wf_set_status.
    apply find_order_Some in Hf as [Hj _].
    rewrite Forall_lookup in Hall. by eapply Hall.
  - unfold post_cancel.
    destruct (cancel_body now oid orders) as [r| |] eqn:Hu; simpl; try done.
    apply cancel_body_Continue in Hu as (j & oj & Hf & Hc & ->). simpl.
    apply Forall_insert; [done|]. apply order_wf_set_status.
    apply find_order_Some in Hf as [Hj _].
    rewrite Forall_lookup in Hall. by eapply Hall.
Qed.

(** X2. Starting from a store of well-formed orders, after every sequence
    of requests every stored order still has a truthy userId and shipping
    address, a non-empty list of valid items, and a total that is the one
    the creation computes from the items the order holds,
    [Math.round(sum * 100) / 100] in double arithmetic: no request
    changes the items or the total of an order. *)
Theorem stored_orders_stay_consistent :
  forall (rqs : list request) (orders : list order),
    Forall order_wf orders -> Forall order_wf (run rqs orders).
Proof.
  intros rqs orders Hall.
  revert orders Hall. induction rqs as [|rq rest IH]; intros orders Hall; simpl; [done|].
  apply IH. by apply handle_wf.
Qed.

(** The statement for X2 applied to the empty store and a creation
    followed by an update. *)
Lemma stored_orders_stay_consistent_witness :
  Forall order_wf [] /\
  Forall order_wf
    (run [Create Examples.first_env Examples.scenario_A;
          UpdateStatus "2024-01-02T00:00:00.000Z" "id-1" (Examples.status_request "shipped")]
       []).
Proof.
  split; [apply Forall_nil_2|].
  exact (stored_orders_stay_consistent
           [Create Examples.first_env Examples.scenario_A;
            UpdateStatus "2024-01-02T00:00:00.000Z" "id-1" (Examples.status_request "shipped")]
           [] (Forall_nil_2 _)).
Defined.

Lemma find_order_None oid orders :
  find_order oid orders = None <-> Forall (fun o => orderId o <> oid) orders.
Proof. unfold find_order. apply list_find_None. Qed.

Lemma find_order_app_new oid orders o :
  find_order oid orders = None -> orderId o = oid ->
  find_order oid (orders ++ [o]) = Some (length orders, o).
Proof.
  intros Hn Hid. unfold find_order. apply list_find_Some. split_and!.
  - by rewrite lookup_app_r, Nat.sub_diag.
  - done.
  - intros j y Hj Hlt. rewrite lookup_app_l in Hj by done.
    apply find_order_None in Hn. rewrite Forall_lookup in Hn. by eapply Hn.
Qed.

Lemma find_order_app_old oid orders o i o0 :
  find_order oid orders = Some (i, o0) ->
  find_order oid (orders ++ [o]) = Some (i, o0).
Proof.
  unfold find_order. intros H. apply list_find_Some in H as (Hi & Hid & Hb).
  apply list_find_Some. split_and!; [by apply lookup_app_l_Some|done|].
  intros j y Hj Hlt. apply lookup_lt_Some in Hi.
  rewrite lookup_app_l in Hj by lia. eauto.
Qed.

(** X3. After an accepted creation a retrieval by the identifier of the
    new order returns exactly the order the creation replied with,
    provided no stored order had that identifier; were the identifier
    already taken, the retrieval would return the older order and the new
    one could not be reached by identifier. *)
Theorem created_order_is_retrievable :
  forall (e : env) (b : jsval) (orders : list order),
    code (snd (post_order e b orders)) = 201%Z ->
    (find_order (uuidv4 e) orders = None ->
     get_order (uuidv4 e) (fst (post_order e b orders))
     = (fst (post_order e b orders),
        mkResponse 200 (payload (snd (post_order e b orders))))) /\
    (forall i o0, find_order (uuidv4 e) orders = Some (i, o0) ->
       get_order (uuidv4 e) (fst (post_order e b orders))
       = (fst (post_order e b orders), mkResponse 200 (OrderBody o0))).
Proof.
  intros e b orders Hcode.
  destruct (post_order_cases e b orders) as [[_ Hn]|(o & E & Hid & _)]; [done|].
  rewrite E. simpl. unfold get_order. split.
  - intros Hnone. by rewrite (find_order_app_new _ _ _ Hnone Hid).
  - intros i o0 Hsome. by rewrite (find_order_app_old _ _ o _ _ Hsome).
Qed.

(** The statement for X3 applied to the first order of an empty store. *)
Lemma created_order_is_retrievable_witness :
  code (snd (post_order Examples.first_env Examples.scenario_A [])) = 201%Z /\
  find_order "id-1" [] = None /\
  get_order "id-1" (fst (post_order Examples.first_env Examples.scenario_A []))
  = (fst (post_order Examples.first_env Examples.scenario_A []),
     mkResponse 200 (payload (snd (post_order Examples.first_env Examples.scenario_A [])))).
Proof.
  split; [reflexivity|]. split; [reflexivity|].
  exact (proj1 (created_order_is_retrievable Examples.first_env Examples.scenario_A []
                  eq_refl) eq_refl).
Defined.

Lemma cancel_body_Reply now oid orders r :
  cancel_body now oid orders = Reply r -> code r = 400%Z \/ code r = 404%Z.
Proof.
  unfold cancel_body. destruct (find_order oid orders) as [[i o]|]; [|intros [= <-]; by right].
  destruct (cancellable (status o)); [done|intros [= <-]; by left].
Qed.

(** The reply codes of the service and what each means for the store. *)
Lemma handle_codes rq orders :
  (code (snd (handle rq orders)) = 201%Z /\
   exists o, fst (handle rq orders) = (orders ++ [o])%list) \/
  (code (snd (handle rq orders)) = 200%Z /\
   length (fst (handle rq orders)) = length orders) \/
  ((code (snd (handle rq orders)) = 400%Z \/ code (snd (handle rq orders)) = 404%Z \/
    code (snd (handle rq orders)) = 500%Z) /\
   fst (handle rq orders) = orders).
Proof.
  destruct rq as [e b|oid|uid|now oid b|now oid]; simpl.
  - unfold post_order. destruct (create_body e b orders) as [r| |] eqn:Hc; simpl.
    + apply create_body_Continue in Hc as (? & ? & ? & ? & _ & _ & _ & _ & _ & _ & ->).
      left. simpl. eauto.
    + apply create_body_Reply in Hc. right; right. eauto.
    + right; right. eauto.
  - unfold get_order. destruct (find_order oid orders) as [[]|]; simpl.
    + right; left. done.
    + right; right. eauto.
  - right; left. done.
  - unfold put_status. destruct (update_body now oid b orders) as [r| |] eqn:Hu; simpl.
    + apply update_body_Continue in Hu as (s & j & oj & _ & _ & _ & ->). simpl.
      right; left. by rewrite length_insert.
    + apply update_body_Reply in Hu. right; right. split; [|done]. destruct Hu; eauto.
    + right; right. eauto.
  - unfold post_cancel. destruct (cancel_body now oid orders) as [r| |] eqn:Hu; simpl.
    + apply cancel_body_Continue in Hu as (j & oj & _ & _ & ->). simpl.
      right; left. by rewrite length_insert.
    + apply cancel_body_Reply in Hu. right; right. split; [|done]. destruct Hu; eauto.
    + right; right. eauto.
Qed.

(** X4. A request that is refused (reply code 400, 404 or 500) leaves the
    store exactly as it was: no handler writes before it has passed all
    its checks. The only reply codes are 200, 201, 400, 404 and 500. *)
Theorem refused_requests_change_nothing :
  forall (rq : request) (orders : list order),
    (code (snd (handle rq orders)) ∈ [200; 201; 400; 404; 500]%Z) /\
    ((400 <= code (snd (handle rq orders)))%Z -> fst (handle rq orders) = orders).
Proof.
  intros rq orders.
  destruct (handle_codes rq orders) as [[-> _]|[[-> _]|[[-> |[-> | ->]] E]]];
    (split; [set_solver|]); try done; lia.
Qed.

(** X5. Orders are never deleted: one request lengthens the store by one
    order when it replies 201 and leaves its length alone otherwise, so
    after a sequence of requests the store has at least its old length
    and at most one more order per request. *)
Theorem store_grows_only_by_creation :
  forall (rqs : list request) (orders : list order),
    (forall rq,
       length (fst (handle rq orders))
       = if decide (code (snd (handle rq orders)) = 201%Z)
         then S (length orders) else length orders) /\
    (length orders <= length (run rqs orders) <= length orders + length rqs)%nat.
Proof.
  intros rqs orders. split.
  - intros rq.
    destruct (handle_codes rq orders) as [[-> [o ->]]|[[-> E]|[[-> |[-> | ->]] ->]]];
      simpl; try done.
    rewrite length_app. simpl. lia.
  - revert orders. induction rqs as [|rq rest IH]; intros orders; simpl; [lia|].
    specialize (IH (fst (handle rq orders))).
    destruct (handle_codes rq orders) as [[_ [o E]]|[[_ E]|[_ E]]]; rewrite E in *.
    + rewrite length_app in IH. simpl in IH. lia.
    + lia.
    + lia.
Qed.

(** X6. After an accepted creation the listing of a user is its old
    listing followed by the new order when the order's userId is that
    very string, and its old listing otherwise; an order created with a
    userId that is not a string (a number, say) is listed for nobody. *)
Theorem listing_after_creation :
  forall (e : env) (b : jsval) (orders : list order) (uid : string),
    code (snd (post_order e b orders)) = 201%Z ->
    exists o,
      snd (post_order e b orders) = mkResponse 201 (OrderBody o) /\
      get_prop b "userId" = Some (userId o) /\
      listing uid (fst (post_order e b orders))
      = (listing uid orders
         ++ match userId o with
            | JStr s => if String.eqb s uid then [o] else []
            | _ => []
            end)%list.
Proof.
  intros e b orders uid Hcode. unfold post_order in *.
  destruct (create_body e b orders) as [r| |] eqn:Hc; simpl in *.
  - apply create_body_Continue in Hc
      as (u & its & sh & t & Hu & _ & _ & _ & _ & _ & ->).
    eexists. split; [reflexivity|]. split; [exact Hu|].
    unfold listing. simpl. rewrite filter_app. f_equal.
    rewrite filter_cons, filter_nil. simpl.
    destruct u as [| | | |s| |]; simpl; try done.
    destruct (String.eqb s uid); by case_decide.
  - apply create_body_Reply in Hc. rewrite Hc in Hcode. done.
  - done.
Qed.

(** The statement for X6 applied to the first order of user-1. *)
Lemma listing_after_creation_witness :
  code (snd (post_order Examples.first_env Examples.scenario_A [])) = 201%Z /\
  exists o,
    snd (post_order Examples.first_env Examples.scenario_A [])
    = mkResponse 201 (OrderBody o) /\
    get_prop Examples.scenario_A "userId" = Some (userId o) /\
    listing "user-1" (fst (post_order Examples.first_env Examples.scenario_A []))
    = (listing "user-1" []
       ++ match userId o with
          | JStr s => if String.eqb s "user-1" then [o] else []
          | _ => []
          end)%list.
Proof.
  split; [reflexivity|].
  exact (listing_after_creation Examples.first_env Examples.scenario_A [] "user-1" eq_refl).
Defined.

Lemma find_order_insert oid orders i o o' :
  find_order oid orders = Some (i, o) -> orderId o' = orderId o ->
  find_order oid (<[i := o']> orders) = Some (i, o').
Proof.
  unfold find_order. intros H Hid. apply list_find_Some in H as (Hi & Ho & Hb).
  apply list_find_Some. split_and!.
  - apply list_lookup_insert_eq. by eapply lookup_lt_Some.
  - congruence.
  - intros j y Hj Hlt. rewrite list_lookup_insert_ne in Hj by lia. eauto.
Qed.

Lemma valid_status_truthy s : s ∈ VALID_STATUSES -> truthy (JStr s) = true.
Proof.
  intros H. apply list_elem_of_In in H. simpl in H.
  destruct H as [<-|[<-|[<-|[<-|[<-|[<-|[]]]]]]]; reflexivity.
Qed.

(** X7. An accepted status update overwrites what a previous update of
    the same order wrote: sending an update and then a second, accepted
    update of the same order leaves the store, and gives the reply, that
    the second update alone would have. *)
Theorem later_update_overwrites :
  forall (now1 now2 oid : string) (b1 b2 : jsval) (orders : list order),
    code (snd (put_status now2 oid b2 (fst (put_status now1 oid b1 orders)))) = 200%Z ->
    put_status now2 oid b2 (fst (put_status now1 oid b1 orders))
    = put_status now2 oid b2 orders.
Proof.
  intros now1 now2 oid b1 b2 orders Hcode.
  destruct (update_body now1 oid b1 orders) as [r1| |] eqn:H1.
  2,3: assert (fst (put_status now1 oid b1 orders) = orders) as ->
         by (unfold put_status; by rewrite H1); done.
  apply update_body_Continue in H1 as H1'.
  destruct H1' as (s1 & i & o & _ & _ & Hf & ->).
  assert (fst (put_status now1 oid b1 orders) = <[i:=set_status o s1 now1]> orders) as E1
    by (unfold put_status; by rewrite H1).
  rewrite E1 in *. clear E1 H1.
  pose proof (find_order_insert oid orders i o (set_status o s1 now1) Hf eq_refl) as Hf'.
  unfold put_status in *.
  destruct (update_body now2 oid b2 (<[i:=set_status o s1 now1]> orders))
    as [r2| |] eqn:H2; simpl in Hcode.
  - apply update_body_Continue in H2 as (s2 & j & oj & Hs2 & Hin2 & Hf2 & ->).
    rewrite Hf' in Hf2. injection Hf2 as <- <-.
    pose proof (valid_status_truthy s2 Hin2) as Ht.
    unfold update_body, destructure, prop. rewrite Hs2. cbn [bind]. rewrite Ht.
    unfold includes_status. rewrite bool_decide_eq_true_2 by done. rewrite Hf.
    cbn [try_catch]. by rewrite list_insert_insert_eq.
  - apply update_body_Reply in H2. destruct H2 as [H2|H2]; rewrite H2 in Hcode; done.
  - done.
Qed.

(** The statement for X7 applied to a pending order that is confirmed
    and then shipped. *)
Lemma later_update_overwrites_witness :
  code (snd (put_status "2024-01-03T00:00:00.000Z" "id-1" (Examples.status_request "shipped")
               (fst (put_status "2024-01-02T00:00:00.000Z" "id-1"
                       (Examples.status_request "confirmed")
                       [Examples.stored_order "id-1" "pending"])))) = 200%Z /\
  put_status "2024-01-03T00:00:00.000Z" "id-1" (Examples.status_request "shipped")
    (fst (put_status "2024-01-02T00:00:00.000Z" "id-1" (Examples.status_request "confirmed")
            [Examples.stored_order "id-1" "pending"]))
  = put_status "2024-01-03T00:00:00.000Z" "id-1" (Examples.status_request "shipped")
      [Examples.stored_order "id-1" "pending"].
Proof.
  split; [reflexivity|].
  exact (later_update_overwrites "2024-01-02T00:00:00.000Z" "2024-01-03T00:00:00.000Z" "id-1"
           (Examples.status_request "confirmed") (Examples.status_request "shipped")
           [Examples.stored_order "id-1" "pending"] eq_refl).
Defined.

(** X8. Cancel is not repeatable: right after a cancel that succeeded, a
    second cancel of the same order is refused with 400 and changes
    nothing. *)
Theorem second_cancel_is_refused :
  forall (now1 now2 oid : string) (orders : list order),
    code (snd (post_cancel now1 oid orders)) = 200%Z ->
    code (snd (post_cancel now2 oid (fst (post_cancel now1 oid orders)))) = 400%Z /\
    fst (post_cancel now2 oid (fst (post_cancel now1 oid orders)))
    = fst (post_cancel now1 oid orders).
Proof.
  intros now1 now2 oid orders Hcode.
  destruct (cancel_body now1 oid orders) as [r1| |] eqn:H1.
  - apply cancel_body_Continue in H1 as H1'. destruct H1' as (i & o & Hf & _ & ->).
    assert (fst (post_cancel now1 oid orders) = <[i:=set_status o "cancelled" now1]> orders)
      as -> by (unfold post_cancel; by rewrite H1).
    pose proof (find_order_insert oid orders i o (set_status o "cancelled" now1) Hf eq_refl)
      as Hf'.
    unfold post_cancel, cancel_body. rewrite Hf'. done.
  - unfold post_cancel in Hcode. rewrite H1 in Hcode. simpl in Hcode.
    apply cancel_body_Reply in H1. destruct H1 as [H1|H1]; rewrite H1 in Hcode; done.
  - unfold post_cancel in Hcode. by rewrite H1 in Hcode.
Qed.

(** The statement for X8 applied to a pending order. *)
Lemma second_cancel_is_refused_witness :
  code (snd (post_cancel "2024-01-02T00:00:00.000Z" "id-1"
               [Examples.stored_order "id-1" "pending"])) = 200%Z /\
  code (snd (post_cancel "2024-01-03T00:00:00.000Z" "id-1"
               (fst (post_cancel "2024-01-02T00:00:00.000Z" "id-1"
                       [Examples.stored_order "id-1" "pending"])))) = 400%Z.
Proof.
  split; [reflexivity|].
  exact (proj1 (second_cancel_is_refused "2024-01-02T00:00:00.000Z" "2024-01-03T00:00:00.000Z"
                  "id-1" [Examples.stored_order "id-1" "pending"] eq_refl)).
Defined.

End OrderMoreFacts.

(** * Further properties of the cart service *)

Module CartMoreFacts.
Import CartService CartMore CartFacts.

Lemma getCart_eq u (c : gmap string (list cart_item)) :
  getCart u c = (fst (getCart u c), contents u c).
Proof. unfold getCart, contents. by destruct (c !! u). Qed.

Lemma insert_getCart u its (c : gmap string (list cart_item)) :
  <[u := its]> (fst (getCart u c)) = <[u := its]> c.
Proof. unfold getCart. destruct (c !! u); simpl; [done|]. apply insert_insert_eq. Qed.

Lemma lookup_getCart_ne u v (c : gmap string (list cart_item)) :
  u <> v -> fst (getCart u c) !! v = c !! v.
Proof.
  intros Hne. unfold getCart. destruct (c !! u); simpl; [done|].
  by rewrite lookup_insert_ne.
Qed.

Lemma contents_getCart u v (c : gmap string (list cart_item)) :
  contents v (fst (getCart u c)) = contents v c.
Proof.
  unfold contents, getCart. destruct (c !! u) eqn:E; simpl; [done|].
  destruct (decide (u = v)) as [<-|Hne].
  - by rewrite lookup_insert_eq, E.
  - by rewrite lookup_insert_ne.
Qed.

Lemma contents_insert u its (c : gmap string (list cart_item)) :
  contents u (<[u := its]> c) = its.
Proof. unfold contents. by rewrite lookup_insert_eq. Qed.

Lemma contents_insert_ne u v its (c : gmap string (list cart_item)) :
  u <> v -> contents v (<[u := its]> c) = contents v c.
Proof. intros. unfold contents. by rewrite lookup_insert_ne. Qed.

Lemma same_contents_insert u its c1 c2 :
  same_contents c1 c2 -> same_contents (<[u := its]> c1) (<[u := its]> c2).
Proof.
  intros H v. destruct (decide (u = v)) as [<-|Hne].
  - by rewrite !contents_insert.
  - rewrite !contents_insert_ne by done. apply H.
Qed.

Lemma same_contents_getCart u c : same_contents (fst (getCart u c)) c.
Proof. intros v. apply contents_getCart. Qed.

Section Runtime.

Variable StringToNumber : string -> number.
Variable NumberToString : number -> string.

(** The ways [POST /api/cart/:userId/items] can end: a refusal before
    [getCart], and after it a throw of a conversion, an increment or a
    new entry. *)
Lemma post_item_cases u b c :
  (fst (post_item StringToNumber NumberToString u b c) = c /\
   (code (snd (post_item StringToNumber NumberToString u b c)) = 400%Z \/
    code (snd (post_item StringToNumber NumberToString u b c)) = 500%Z)) \/
  (exists pid nm pr qty,
     get_prop b "productId" = Some pid /\ get_prop b "name" = Some nm /\
     get_prop b "price" = Some pr /\ get_prop b "quantity" = Some qty /\
     truthy pid = true /\ truthy nm = true /\ nullish pr = false /\ nullish qty = false /\
     (post_item StringToNumber NumberToString u b c
      = (fst (getCart u c), json_error 500 "Internal server error") \/
      (exists i existing q,
         find_item pid (contents u c) = Some (i, existing) /\
         js_plus StringToNumber NumberToString (quantity existing) qty = Some q /\
         post_item StringToNumber NumberToString u b c
         = (<[u := <[i := set_quantity existing q]> (contents u c)]> c,
            mkResponse 200
              (CartBody u (<[i := set_quantity existing q]> (contents u c))))) \/
      (exists p q,
         find_item pid (contents u c) = None /\
         Number StringToNumber NumberToString pr = Some p /\
         Number StringToNumber NumberToString qty = Some q /\
         post_item StringToNumber NumberToString u b c
         = (<[u := (contents u c ++ [mkItem pid nm p (RNum q)])%list]> c,
            mkResponse 201
              (CartBody u (contents u c ++ [mkItem pid nm p (RNum q)])%list))))).
Proof.
  unfold post_item, add_body, prop.
  destruct (get_prop b "productId") as [pid|]; cbn [bind]; [|left; simpl; eauto].
  destruct (get_prop b "name") as [nm|]; cbn [bind]; [|left; simpl; eauto].
  destruct (get_prop b "price") as [pr|]; cbn [bind]; [|left; simpl; eauto].
  destruct (get_prop b "quantity") as [qty|]; cbn [bind]; [|left; simpl; eauto].
  destruct (truthy pid) eqn:Tp; simpl; [|left; eauto].
  destruct (truthy nm) eqn:Tn; simpl; [|left; eauto].
  destruct (nullish pr) eqn:Np; simpl; [left; eauto|].
  destruct (nullish qty) eqn:Nq; simpl; [left; eauto|].
  right. exists pid, nm, pr, qty. split_and!; try done.
  rewrite (getCart_eq u c). cbn [error_handler fst].
  destruct (add_to_cart_cases StringToNumber NumberToString u pid nm pr qty
              (fst (getCart u c)) (contents u c))
    as [->|[(i & existing & q & Hf & Hq & ->)|(p & q & Hf & Hp & Hq & ->)]].
  - by left.
  - right. left. exists i, existing, q. by rewrite insert_getCart.
  - right. right. exists p, q. by rewrite insert_getCart.
Qed.

Lemma put_item_cases u pid b c :
  (fst (put_item StringToNumber NumberToString u pid b c) = c /\
   (code (snd (put_item StringToNumber NumberToString u pid b c)) = 400%Z \/
    code (snd (put_item StringToNumber NumberToString u pid b c)) = 500%Z)) \/
  (exists qty,
     get_prop b "quantity" = Some qty /\ nullish qty = false /\
     (put_item StringToNumber NumberToString u pid b c
      = (fst (getCart u c), json_error 500 "Internal server error") \/
      (exists i it q,
         find_item (JStr pid) (contents u c) = Some (i, it) /\
         Number StringToNumber NumberToString qty = Some q /\
         put_item StringToNumber NumberToString u pid b c
         = (<[u := <[i := set_quantity it (RNum q)]> (contents u c)]> c,
            mkResponse 200
              (CartBody u (<[i := set_quantity it (RNum q)]> (contents u c))))) \/
      (find_item (JStr pid) (contents u c) = None /\
       put_item StringToNumber NumberToString u pid b c
       = (fst (getCart u c), json_error 404 "Item not found in cart")))).
Proof.
  unfold put_item, update_body, prop.
  destruct (get_prop b "quantity") as [qty|]; cbn [bind]; [|left; simpl; eauto].
  destruct (nullish qty) eqn:Nq; simpl; [left; eauto|].
  right. exists qty. split_and!; try done.
  rewrite (getCart_eq u c). cbn [error_handler fst].
  destruct (update_in_cart_cases StringToNumber NumberToString u pid qty
              (fst (getCart u c)) (contents u c))
    as [->|[[Hf ->]|(i & it & q & Hf & Hq & ->)]].
  - by left.
  - right. right. done.
  - right. left. exists i, it, q. by rewrite insert_getCart.
Qed.

Lemma delete_item_cases u pid c :
  (exists i it,
     find_item (JStr pid) (contents u c) = Some (i, it) /\
     delete_item u pid c
     = (<[u := delete i (contents u c)]> c,
        mkResponse 200 (CartBody u (delete i (contents u c))))) \/
  (find_item (JStr pid) (contents u c) = None /\
   delete_item u pid c = (fst (getCart u c), json_error 404 "Item not found in cart")).
Proof.
  unfold delete_item. rewrite (getCart_eq u c).
  destruct (find_item (JStr pid) (contents u c)) as [[i it]|] eqn:Hf; simpl.
  - left. exists i, it. by rewrite insert_getCart.
  - right. done.
Qed.

(** X9. Carts are isolated: a request that addresses the cart of one
    user leaves the cart of every other user exactly as it was. *)
Theorem other_carts_untouched :
  forall (rq : request) (carts : gmap string (list cart_item)) (v : string),
    v <> user_of rq ->
    fst (handle StringToNumber NumberToString rq carts) !! v = carts !! v.
Proof.
  intros rq carts v Hne. destruct rq as [u b|u p b|u p|u|u]; simpl in *.
  - destruct (post_item_cases u b carts)
      as [[-> _]|(pid & nm & pr & qty & _ & _ & _ & _ & _ & _ & _ & _ &
                  [->|[(i & ex & q & _ & _ & ->)|(p & q & _ & _ & _ & ->)]])];
      simpl; try done.
    + by apply lookup_getCart_ne.
    + by rewrite lookup_insert_ne.
    + by rewrite lookup_insert_ne.
  - destruct (put_item_cases u p b carts)
      as [[-> _]|(qty & _ & _ & [->|[(i & it & q & _ & _ & ->)|[_ ->]]])]; simpl; try done.
    + by apply lookup_getCart_ne.
    + by rewrite lookup_insert_ne.
    + by apply lookup_getCart_ne.
  - destruct (delete_item_cases u p carts) as [(i & it & _ & ->)|[_ ->]]; simpl.
    + by rewrite lookup_insert_ne.
    + by apply lookup_getCart_ne.
  - by rewrite lookup_delete_ne.
  - unfold get_cart. rewrite (getCart_eq u carts). simpl. by apply lookup_getCart_ne.
Qed.

Lemma handle_same_contents rq c1 c2 :
  same_contents c1 c2 ->
  snd (handle StringToNumber NumberToString rq c1)
  = snd (handle StringToNumber NumberToString rq c2) /\
  same_contents (fst (handle StringToNumber NumberToString rq c1))
                (fst (handle StringToNumber NumberToString rq c2)).
Proof.
  intros H. destruct rq as [u b|u p b|u p|u|u]; simpl.
  - unfold post_item, add_body, prop.
    destruct (get_prop b "productId") as [pid|]; cbn [bind]; [|done].
    destruct (get_prop b "name") as [nm|]; cbn [bind]; [|done].
    destruct (get_prop b "price") as [pr|]; cbn [bind]; [|done].
    destruct (get_prop b "quantity") as [qty|]; cbn [bind]; [|done].
    destruct (truthy pid && truthy nm && negb (nullish pr) && negb (nullish qty)); [|done].
    rewrite (getCart_eq u c1), (getCart_eq u c2), (H u). cbn [error_handler].
    pose proof (same_contents_getCart u c1) as G1.
    pose proof (same_contents_getCart u c2) as G2.
    assert (same_contents (fst (getCart u c1)) (fst (getCart u c2))) as G.
    { intros v. by rewrite G1, G2. }
    unfold add_to_cart.
    destruct (find_item pid (contents u c2)) as [[i ex]|].
    + destruct (js_plus StringToNumber NumberToString (quantity ex) qty) as [q|]; simpl;
        [|done].
      split; [done|]. by apply same_contents_insert.
    + destruct (Number StringToNumber NumberToString pr) as [p0|]; simpl; [|done].
      destruct (Number StringToNumber NumberToString qty) as [q|]; simpl; [|done].
      split; [done|]. by apply same_contents_insert.
  - unfold put_item, update_body, prop.
    destruct (get_prop b "quantity") as [qty|]; cbn [bind]; [|done].
    destruct (negb (nullish qty)); [|done].
    rewrite (getCart_eq u c1), (getCart_eq u c2), (H u). cbn [error_handler].
    pose proof (same_contents_getCart u c1) as G1.
    pose proof (same_contents_getCart u c2) as G2.
    assert (same_contents (fst (getCart u c1)) (fst (getCart u c2))) as G.
    { intros v. by rewrite G1, G2. }
    unfold update_in_cart.
    destruct (find_item (JStr p) (contents u c2)) as [[i it]|]; simpl; [|done].
    destruct (Number StringToNumber NumberToString qty) as [q|]; simpl; [|done].
    split; [done|]. by apply same_contents_insert.
  - unfold delete_item. rewrite (getCart_eq u c1), (getCart_eq u c2), (H u).
    destruct (find_item (JStr p) (contents u c2)) as [[i it]|]; simpl.
    + split; [done|]. rewrite !insert_getCart. by apply same_contents_insert.
    + split; [done|]. intros v. by rewrite !contents_getCart.
  - split; [done|]. intros v. unfold contents. destruct (decide (u = v)) as [<-|Hne].
    + by rewrite !lookup_delete_eq.
    + rewrite !lookup_delete_ne by done. apply H.
  - unfold get_cart. rewrite (getCart_eq u c1), (getCart_eq u c2), (H u). simpl.
    split; [done|]. intros v. by rewrite !contents_getCart.
Qed.

(** X10. Whether an empty cart has been created or not cannot be seen
    from outside: two stores that hold the same entries for every user
    give the same reply to every request and again hold the same entries
    afterwards. In particular the write that a retrieval does on its
    first use (it creates the empty cart) changes no later reply. *)
Theorem empty_cart_creation_is_unobservable :
  forall (rq : request) (c1 c2 : gmap string (list cart_item)),
    same_contents c1 c2 ->
    snd (handle StringToNumber NumberToString rq c1)
    = snd (handle StringToNumber NumberToString rq c2) /\
    same_contents (fst (handle StringToNumber NumberToString rq c1))
                  (fst (handle StringToNumber NumberToString rq c2)) /\
    (forall u,
       snd (handle StringToNumber NumberToString rq (fst (get_cart u c1)))
       = snd (handle StringToNumber NumberToString rq c2)).
Proof.
  intros rq c1 c2 H. destruct (handle_same_contents rq c1 c2 H) as [H1 H2].
  split_and!; try done. intros u.
  apply handle_same_contents. intros v. unfold get_cart.
  rewrite (getCart_eq u c1). simpl. rewrite contents_getCart. apply H.
Qed.

(** X11. The reply code of an addition tells what it did: 201 means one
    entry was appended for a product not yet in the cart; 200 means the
    product was found and the cart has the same entries with the same
    product identifiers, names and prices (the name and price sent with
    the request are ignored); a 400 means nothing was written; a 500
    means no entry was written, but the empty cart of a user who had none
    may have been created: this is what happens when the conversion of
    the price throws, as it does on an object with a [toString] property
    of its own. *)
Theorem add_reply_tells_effect :
  forall (u : string) (b : jsval) (carts : gmap string (list cart_item)),
    (code (snd (post_item StringToNumber NumberToString u b carts)) = 201%Z ->
     exists it,
       contents u (fst (post_item StringToNumber NumberToString u b carts))
       = (contents u carts ++ [it])%list /\
       get_prop b "productId" = Some (productId it) /\
       get_prop b "name" = Some (name it) /\
       find_item (productId it) (contents u carts) = None) /\
    (code (snd (post_item StringToNumber NumberToString u b carts)) = 200%Z ->
     Forall2 same_catalog (contents u carts)
       (contents u (fst (post_item StringToNumber NumberToString u b carts)))) /\
    (code (snd (post_item StringToNumber NumberToString u b carts)) = 400%Z ->
     fst (post_item StringToNumber NumberToString u b carts) = carts) /\
    ((400 <= code (snd (post_item StringToNumber NumberToString u b carts)))%Z ->
     same_contents (fst (post_item StringToNumber NumberToString u b carts)) carts /\
     (fst (post_item StringToNumber NumberToString u b carts) = carts \/
      (carts !! u = None /\
       fst (post_item StringToNumber NumberToString u b carts) = <[u := []]> carts))) /\
    post_item StringToNumber NumberToString u shadowed_request ∅
    = (<[u := []]> ∅, json_error 500 "Internal server error").
Proof.
  intros u b carts.
  assert (same_contents (fst (getCart u carts)) carts /\
          (fst (getCart u carts) = carts \/
           (carts !! u = None /\ fst (getCart u carts) = <[u := []]> carts))) as Hget.
  { split; [apply same_contents_getCart|].
    unfold getCart. destruct (carts !! u); simpl; eauto. }
  split_and!; [| | | |reflexivity];
  destruct (post_item_cases u b carts)
    as [[E Hc]|(pid & nm & pr & qty & Hpid & Hnm & _ & _ & _ & _ & _ & _ &
                [E|[(i & ex & q & Hf & _ & E)|(p & q & Hf & _ & _ & E)]])];
    try (intros Hcode; destruct Hc as [Hc|Hc]; rewrite Hc in Hcode; done);
    try (rewrite E; simpl; done).
  - rewrite E. simpl. intros _. rewrite contents_insert.
    eexists. split; [reflexivity|]. done.
  - rewrite E. simpl. intros _. rewrite contents_insert.
    apply find_item_Some in Hf as [Hi _].
    apply Forall2_same_length_lookup_2; [by rewrite length_insert|].
    intros j x y Hx Hy. destruct (decide (i = j)) as [->|Hne].
    + rewrite list_lookup_insert_eq in Hy by (by eapply lookup_lt_Some).
      injection Hy as <-. assert (x = ex) as -> by congruence. done.
    + rewrite list_lookup_insert_ne in Hy by done.
      assert (x = y) as -> by congruence. done.
  - rewrite E. intros _. split; [done|by left].
Qed.

Lemma strict_eq_JStr a pid : strict_eq a (JStr pid) = true -> a = JStr pid.
Proof. destruct a; simpl; try done. intros H. apply String.eqb_eq in H. by subst. Qed.

Lemma find_item_None pid its :
  find_item pid its = None <-> Forall (fun it => strict_eq (productId it) pid <> true) its.
Proof. unfold find_item. apply list_find_None. Qed.

(** X12. A removal that succeeds takes out the one entry of that
    product: afterwards the cart is one entry shorter, holds no entry of
    that product, and a second removal of the same product replies 404. *)
Theorem removed_product_is_gone :
  forall (u pid : string) (carts : gmap string (list cart_item)),
    carts_ok carts ->
    code (snd (delete_item u pid carts)) = 200%Z ->
    S (length (contents u (fst (delete_item u pid carts)))) = length (contents u carts) /\
    find_item (JStr pid) (contents u (fst (delete_item u pid carts))) = None /\
    code (snd (delete_item u pid (fst (delete_item u pid carts)))) = 404%Z.
Proof.
  intros u pid carts Hok Hcode.
  assert (unique_products (contents u carts)) as Hu.
  { unfold contents. destruct (carts !! u) as [its|] eqn:E; simpl.
    - by eapply Hok.
    - apply unique_products_nil. }
  destruct (delete_item_cases u pid carts) as [(i & it & Hf & E)|[_ E]];
    [|by rewrite E in Hcode].
  rewrite E. simpl. rewrite contents_insert.
  apply find_item_Some in Hf as [Hi Heq].
  assert (find_item (JStr pid) (delete i (contents u carts)) = None) as Hnone.
  { apply find_item_None. apply Forall_lookup. intros j x Hj Hx.
    apply strict_eq_JStr in Hx. apply strict_eq_JStr in Heq.
    assert (strict_eq (productId x) (productId it) = true) as Hxi.
    { rewrite Hx, Heq. simpl. apply String.eqb_refl. }
    destruct (decide (j < i)%nat).
    - rewrite list_lookup_delete_lt in Hj by done.
      pose proof (Hu j i x it Hj Hi Hxi). lia.
    - rewrite list_lookup_delete_ge in Hj by lia.
      pose proof (Hu (S j) i x it Hj Hi Hxi). lia. }
  split_and!.
  - rewrite length_delete by eauto. apply lookup_lt_Some in Hi. lia.
  - done.
  - destruct (delete_item_cases u pid (<[u:=delete i (contents u carts)]> carts))
      as [(i' & it' & Hf' & _)|[_ ->]]; [|done].
    rewrite contents_insert in Hf'. congruence.
Qed.

(** X13. The update and removal routes take the product identifier from
    the URL, a text, and compare it with [===]: an entry whose product
    identifier is not a text (a number, say, which an addition accepts)
    can be neither updated nor removed; both routes reply 404 and the
    entries stay as they are. *)
Theorem non_text_product_unreachable :
  forall (u pid : string) (b : jsval) (carts : gmap string (list cart_item)),
    Forall (fun it => forall s, productId it <> JStr s) (contents u carts) ->
    code (snd (delete_item u pid carts)) = 404%Z /\
    contents u (fst (delete_item u pid carts)) = contents u carts /\
    (forall qty, get_prop b "quantity" = Some qty -> nullish qty = false ->
       code (snd (put_item StringToNumber NumberToString u pid b carts)) = 404%Z /\
       contents u (fst (put_item StringToNumber NumberToString u pid b carts))
       = contents u carts).
Proof.
  intros u pid b carts Hall.
  assert (find_item (JStr pid) (contents u carts) = None) as Hnone.
  { apply find_item_None. eapply Forall_impl; [exact Hall|].
    intros it Hit Heq. apply strict_eq_JStr in Heq. by eapply Hit. }
  split_and!.
  - destruct (delete_item_cases u pid carts) as [(i & it & Hf & _)|[_ ->]]; [congruence|done].
  - destruct (delete_item_cases u pid carts) as [(i & it & Hf & _)|[_ ->]]; [congruence|].
    simpl. apply contents_getCart.
  - intros qty Hq Hn.
    unfold put_item, update_body, prop. rewrite Hq. cbn [bind]. rewrite Hn. simpl.
    rewrite (getCart_eq u carts). unfold update_in_cart. rewrite Hnone. simpl.
    split; [done|apply contents_getCart].
Qed.

(** X14. Every reply that shows a cart shows it as it is stored
    afterwards: a retrieval made right after it returns the same items. *)
Theorem reply_shows_stored_cart :
  forall (rq : request) (carts : gmap string (list cart_item)) (u : string)
         (its : list cart_item),
    payload (snd (handle StringToNumber NumberToString rq carts)) = CartBody u its ->
    snd (get_cart u (fst (handle StringToNumber NumberToString rq carts)))
    = mkResponse 200 (CartBody u its).
Proof.
  intros rq carts u its. unfold get_cart at 1.
  rewrite (getCart_eq u (fst (handle StringToNumber NumberToString rq carts))). simpl.
  destruct rq as [v b|v p b|v p|v|v]; simpl.
  - unfold post_item, add_body, prop.
    destruct (get_prop b "productId") as [pid|]; cbn [bind]; [|done].
    destruct (get_prop b "name") as [nm|]; cbn [bind]; [|done].
    destruct (get_prop b "price") as [pr|]; cbn [bind]; [|done].
    destruct (get_prop b "quantity") as [qty|]; cbn [bind]; [|done].
    destruct (truthy pid && truthy nm && negb (nullish pr) && negb (nullish qty)); [|done].
    rewrite (getCart_eq v carts). cbn [error_handler].
    destruct (add_to_cart_cases StringToNumber NumberToString v pid nm pr qty
                (fst (getCart v carts)) (contents v carts))
      as [->|[(i & ex & q & _ & _ & ->)|(p0 & q & _ & _ & _ & ->)]]; simpl; [done| |];
      intros [= <- <-]; by rewrite contents_insert.
  - unfold put_item, update_body, prop.
    destruct (get_prop b "quantity") as [qty|]; cbn [bind]; [|done].
    destruct (negb (nullish qty)); [|done].
    rewrite (getCart_eq v carts). cbn [error_handler].
    destruct (update_in_cart_cases StringToNumber NumberToString v p qty
                (fst (getCart v carts)) (contents v carts))
      as [->|[[_ ->]|(i & it & q & _ & _ & ->)]]; simpl; [done|done|].
    intros [= <- <-]. by rewrite contents_insert.
  - unfold delete_item. rewrite (getCart_eq v carts).
    destruct (find_item (JStr p) (contents v carts)) as [[i it]|]; simpl; [|done].
    intros [= <- <-]. by rewrite contents_insert.
  - intros [= <- <-]. unfold contents. by rewrite lookup_delete_eq.
  - unfold get_cart. rewrite (getCart_eq v carts). simpl.
    intros [= <- <-]. by rewrite contents_getCart.
Qed.

Lemma find_item_app_new pid its it :
  find_item pid its = None -> strict_eq (productId it) pid = true ->
  find_item pid (its ++ [it]) = Some (length its, it).
Proof.
  intros Hn Heq. unfold find_item. apply list_find_Some. split_and!.
  - by rewrite lookup_app_r, Nat.sub_diag.
  - done.
  - intros j y Hj Hlt. rewrite lookup_app_l in Hj by done.
    apply find_item_None in Hn. rewrite Forall_lookup in Hn. by eapply Hn.
Qed.


End Runtime.

(** The statement for X9 applied to an addition to the cart of user-1. *)
Lemma other_carts_untouched_witness :
  "user-2" <> user_of (AddItem "user-1" (Examples.cart_request "sku-1" (JNum 2))) /\
  fst (handle demo_StringToNumber demo_NumberToString
         (AddItem "user-1" (Examples.cart_request "sku-1" (JNum 2))) ∅) !! "user-2"
  = (∅ : gmap string (list cart_item)) !! "user-2".
Proof.
  assert ("user-2" <> user_of (AddItem "user-1" (Examples.cart_request "sku-1" (JNum 2))))
    as H by discriminate.
  split; [exact H|].
  exact (other_carts_untouched demo_StringToNumber demo_NumberToString
           (AddItem "user-1" (Examples.cart_request "sku-1" (JNum 2)))
           ∅ "user-2" H).
Defined.

(** The statement for X10 applied to the empty store and the store that
    holds an empty cart for user-1. *)
Lemma empty_cart_creation_is_unobservable_witness :
  same_contents ∅ {["user-1" := []]} /\
  snd (handle demo_StringToNumber demo_NumberToString (GetCart "user-1") ∅)
  = snd (handle demo_StringToNumber demo_NumberToString (GetCart "user-1")
           {["user-1" := []]}).
Proof.
  assert (same_contents ∅ {["user-1" := []]}) as H.
  { intros v. unfold contents. destruct (decide ("user-1" = v)) as [<-|Hne].
    - by rewrite lookup_empty, lookup_singleton_eq.
    - by rewrite lookup_empty, lookup_singleton_ne. }
  split; [exact H|].
  exact (proj1 (empty_cart_creation_is_unobservable demo_StringToNumber demo_NumberToString
                  (GetCart "user-1") ∅ {["user-1" := []]} H)).
Defined.

(** The statement for X12 applied to a cart with one entry. *)
Lemma removed_product_is_gone_witness :
  carts_ok {["user-1" := [mkItem (JStr "sku-1") (JStr "item") (Fin 2) (RNum (Fin 1))]]} /\
  code (snd (delete_item "user-1" "sku-1"
               {["user-1" := [mkItem (JStr "sku-1") (JStr "item") (Fin 2) (RNum (Fin 1))]]}))
  = 200%Z /\
  find_item (JStr "sku-1")
    (contents "user-1"
       (fst (delete_item "user-1" "sku-1"
               {["user-1" := [mkItem (JStr "sku-1") (JStr "item") (Fin 2) (RNum (Fin 1))]]})))
  = None.
Proof.
  assert (carts_ok
            {["user-1" := [mkItem (JStr "sku-1") (JStr "item") (Fin 2) (RNum (Fin 1))]]})
    as H.
  { apply carts_ok_insert; [apply empty_carts_ok|].
    intros [|i] [|j] a b Ha Hb _; simpl in *; done. }
  assert (code (snd (delete_item "user-1" "sku-1"
               {["user-1" := [mkItem (JStr "sku-1") (JStr "item") (Fin 2) (RNum (Fin 1))]]}))
          = 200%Z) as Hc by (vm_compute; reflexivity).
  split; [exact H|]. split; [exact Hc|].
  exact (proj1 (proj2 (removed_product_is_gone "user-1" "sku-1" _ H Hc))).
Defined.

(** The statement for X13 applied to a cart whose only entry has the
    number 7 as product identifier. *)
Lemma non_text_product_unreachable_witness :
  Forall (fun it => forall s, productId it <> JStr s)
    (contents "user-1"
       {["user-1" := [mkItem (JNum 7) (JStr "item") (Fin 2) (RNum (Fin 1))]]}) /\
  code (snd (delete_item "user-1" "7"
               {["user-1" := [mkItem (JNum 7) (JStr "item") (Fin 2) (RNum (Fin 1))]]}))
  = 404%Z.
Proof.
  assert (Forall (fun it => forall s, productId it <> JStr s)
            (contents "user-1"
               {["user-1" := [mkItem (JNum 7) (JStr "item") (Fin 2) (RNum (Fin 1))]]}))
    as H.
  { unfold contents. rewrite lookup_singleton_eq. simpl.
    apply Forall_cons. split; [intros s; discriminate|apply Forall_nil_2]. }
  split; [exact H|].
  exact (proj1 (non_text_product_unreachable demo_StringToNumber demo_NumberToString
                  "user-1" "7" (quantity_request 1) _ H)).
Defined.

(** The statement for X14 applied to a first addition. *)
Lemma reply_shows_stored_cart_witness :
  payload (snd (handle demo_StringToNumber demo_NumberToString
                  (AddItem "user-1" (Examples.cart_request "sku-1" (JNum 2))) ∅))
  = CartBody "user-1" [mkItem (JStr "sku-1") (JStr "item") (Fin (1999 # 100)) (RNum (Fin 2))] /\
  snd (get_cart "user-1"
         (fst (handle demo_StringToNumber demo_NumberToString
                 (AddItem "user-1" (Examples.cart_request "sku-1" (JNum 2))) ∅)))
  = mkResponse 200
      (CartBody "user-1"
         [mkItem (JStr "sku-1") (JStr "item") (Fin (1999 # 100)) (RNum (Fin 2))]).
Proof.
  assert (payload (snd (handle demo_StringToNumber demo_NumberToString
                  (AddItem "user-1" (Examples.cart_request "sku-1" (JNum 2))) ∅))
          = CartBody "user-1"
              [mkItem (JStr "sku-1") (JStr "item") (Fin (1999 # 100)) (RNum (Fin 2))])
    as H by (vm_compute; reflexivity).
  split; [exact H|].
  exact (reply_shows_stored_cart demo_StringToNumber demo_NumberToString
           (AddItem "user-1" (Examples.cart_request "sku-1" (JNum 2))) ∅ "user-1" _ H).
Defined.


End CartMoreFacts.

(** * Further properties of the user service *)

Module UserMoreFacts.
Import UserService UserMore UserFacts.

Lemma code_201_not_refused : (201 ∈ [400; 409; 500])%Z -> False.
Proof.
  rewrite !elem_of_cons, elem_of_nil. intros [?|[?|[?|[]]]]; discriminate.
Qed.

(** The two ways the first piece of a registration can end. *)
Lemma register_arrives_cases b st :
  (exists r, register_arrives b st = Sent r /\ code r ∈ [400; 409; 500]%Z) \/
  (exists usr eml pwd,
     get_prop b "username" = Some usr /\ get_prop b "email" = Some eml /\
     get_prop b "password" = Some pwd /\
     truthy usr = true /\ truthy eml = true /\ truthy pwd = true /\
     list_find (fun u => strict_eq (email u) eml = true) (users st) = None /\
     register_arrives b st = Suspended usr eml pwd).
Proof.
  unfold register_arrives, register_checks, prop.
  destruct (get_prop b "username") as [usr|]; cbn [bind];
    [|left; eexists; split; [done|]; simpl; set_solver].
  destruct (get_prop b "email") as [eml|]; cbn [bind];
    [|left; eexists; split; [done|]; simpl; set_solver].
  destruct (get_prop b "password") as [pwd|]; cbn [bind];
    [|left; eexists; split; [done|]; simpl; set_solver].
  destruct (truthy usr) eqn:Tu; simpl; [|left; eexists; split; [done|]; simpl; set_solver].
  destruct (truthy eml) eqn:Te; simpl; [|left; eexists; split; [done|]; simpl; set_solver].
  destruct (truthy pwd) eqn:Tp; simpl; [|left; eexists; split; [done|]; simpl; set_solver].
  destruct (list_find _ (users st)) as [[i u]|] eqn:Hf; simpl;
    [left; eexists; split; [done|]; simpl; set_solver|].
  right. exists usr, eml, pwd. done.
Qed.

(** Looking for a user that was appended last and that no earlier user
    matches. *)
Lemma list_find_app_new (P : user -> Prop) `{!forall u, Decision (P u)} us u extra :
  list_find P us = None -> P u ->
  list_find P (us ++ u :: extra) = Some (length us, u).
Proof.
  intros Hn Hu. apply list_find_Some. split_and!.
  - rewrite lookup_app_r by lia. by rewrite Nat.sub_diag.
  - done.
  - intros j y Hj Hlt. rewrite lookup_app_l in Hj by done.
    apply list_find_None in Hn. rewrite Forall_lookup in Hn. by eapply Hn.
Qed.

Section Steps.

Variable parseInt10 : string -> option Z.

(** A piece of a handler leaves the store as it is or appends one user
    under the identifier [nextId]. *)
Lemma do_step_users s st :
  fst (do_step parseInt10 s st) = st \/
  (exists u, id u = nextId st /\
     fst (do_step parseInt10 s st)
     = {| users := (users st ++ [u])%list; nextId := (nextId st + 1)%Z |}).
Proof.
  destruct s as [b|now usr eml [h|msg]|p|]; simpl; try by left.
  - right. by eexists (mkUser _ _ _ _ _).
  - left. unfold get_user. destruct (parseInt10 p); [|done].
    by destruct (list_find _ (users st)) as [[]|].
Qed.

Lemma do_step_ids_wf s st : ids_wf st -> ids_wf (fst (do_step parseInt10 s st)).
Proof.
  intros (Hlt & Hnd).
  destruct (do_step_users s st) as [->|(u & Hid & ->)]; [done|].
  unfold ids_wf. simpl. split.
  - apply Forall_app. split.
    + eapply Forall_impl; [exact Hlt|]. simpl. intros; lia.
    + constructor; [lia|done].
  - rewrite fmap_app. apply NoDup_app. split_and!; [done| |apply NoDup_singleton].
    intros x Hx Hx'. apply list_elem_of_singleton in Hx'. subst x.
    apply list_elem_of_fmap in Hx as (a & Ha & Hin).
    rewrite Forall_forall in Hlt. specialize (Hlt a Hin). lia.
Qed.

Lemma run_steps_cons s rest st :
  fst (run_steps parseInt10 (s :: rest) st)
  = fst (run_steps parseInt10 rest (fst (do_step parseInt10 s st))).
Proof.
  simpl. destruct (do_step parseInt10 s st) as [st1 o]. simpl.
  by destruct (run_steps parseInt10 rest st1).
Qed.

Lemma run_steps_ids_wf ss st :
  ids_wf st -> ids_wf (fst (run_steps parseInt10 ss st)).
Proof.
  revert st. induction ss as [|s rest IH]; intros st Hwf; [done|].
  rewrite run_steps_cons. apply IH. by apply do_step_ids_wf.
Qed.

(** Users are only ever appended. *)
Lemma run_steps_prefix ss st :
  exists extra, users (fst (run_steps parseInt10 ss st)) = (users st ++ extra)%list.
Proof.
  revert st. induction ss as [|s rest IH]; intros st.
  - exists []. simpl. by rewrite app_nil_r.
  - rewrite run_steps_cons.
    destruct (IH (fst (do_step parseInt10 s st))) as [extra ->].
    destruct (do_step_users s st) as [->|(u & _ & ->)]; simpl; [eauto|].
    exists (u :: extra). by rewrite <- app_assoc.
Qed.

Section Login.

Variable bcrypt_compare : jsval -> string -> bool + string.
Variable jwt_sign : string -> Z -> jsval -> string.

(** X20. Registration followed by login. Take the moment the second
    piece of a registration stores its user, the hash [h] having
    settled, and suppose that no stored user has that email at that
    moment (the check of the first piece ensures it unless a registration
    of the same email was completed in between) and that the email is a
    primitive value, so that it is [===] to itself. Then, after whatever
    pieces of handlers run next, a login with that email and with a
    password that [bcrypt.compare] accepts against [h] replies 200 with
    the identifier of the new user and the token signed for it. *)
Theorem login_after_registration :
  forall (now_r now_l : string) (usr eml pwd : jsval) (h : string) (ss : list step)
         (b : jsval) (st : state),
    list_find (fun u => strict_eq (email u) eml = true) (users st) = None ->
    strict_eq eml eml = true ->
    bcrypt_compare pwd h = inl true ->
    get_prop b "email" = Some eml ->
    get_prop b "password" = Some pwd ->
    truthy eml = true ->
    truthy pwd = true ->
    UserLogin.login bcrypt_compare jwt_sign now_l b
      (fst (run_steps parseInt10 ss (fst (register_resumes now_r usr eml (inl h) st))))
    = UserLogin.mkResponse 200
        (UserLogin.TokenBody (jwt_sign now_l (nextId st) eml) (nextId st)).
Proof.
  intros now_r now_l usr eml pwd h ss b st Hf Hrefl Hcmp He Hp Te Tp.
  destruct (run_steps_prefix ss (fst (register_resumes now_r usr eml (inl h) st)))
    as [extra Hx].
  unfold UserLogin.login, UserLogin.login_body, prop.
  rewrite He, Hp. cbn [bind]. rewrite Te, Tp. simpl. simpl in Hx. rewrite Hx.
  rewrite <- app_assoc. simpl.
  rewrite (list_find_app_new (fun u => strict_eq (email u) eml = true) (users st)
             (mkUser (nextId st) usr eml h now_r) extra Hf Hrefl).
  simpl. by rewrite Hcmp.
Qed.

(** A login succeeds only for a registered email whose stored hash
    [bcrypt.compare] accepts: the user it names is the first one with
    that email, and the reply carries that user's identifier and the
    token signed for it. A login that replies 401 always carries the
    same body, whether the email is unknown or the password is wrong. *)
Theorem login_success_names_registered_user :
  forall (now : string) (b : jsval) (st : state),
    (UserLogin.code (UserLogin.login bcrypt_compare jwt_sign now b st) = 200%Z ->
     exists eml pwd i u,
       get_prop b "email" = Some eml /\ get_prop b "password" = Some pwd /\
       list_find (fun u => strict_eq (email u) eml = true) (users st) = Some (i, u) /\
       bcrypt_compare pwd (password u) = inl true /\
       UserLogin.login bcrypt_compare jwt_sign now b st
       = UserLogin.mkResponse 200
           (UserLogin.TokenBody (jwt_sign now (id u) (email u)) (id u))) /\
    (UserLogin.code (UserLogin.login bcrypt_compare jwt_sign now b st) = 401%Z ->
     UserLogin.login bcrypt_compare jwt_sign now b st
     = UserLogin.json_error 401 "Invalid credentials").
Proof.
  intros now b st. unfold UserLogin.login, UserLogin.login_body, prop.
  destruct (get_prop b "email") as [eml|]; cbn [bind]; [|done].
  destruct (get_prop b "password") as [pwd|]; cbn [bind]; [|done].
  destruct (truthy eml && truthy pwd); simpl; [|done].
  destruct (list_find _ (users st)) as [[i u]|] eqn:Hf; simpl; [|done].
  destruct (bcrypt_compare pwd (password u)) as [[|]|msg] eqn:Hcmp; simpl; try done.
  split; [|done]. intros _. exists eml, pwd, i, u. done.
Qed.

End Login.

Section Hash.

Variable bcrypt_hash : string -> jsval -> string + string.

(** The two ways a registration that nothing overlaps can end. *)
Lemma register_cases e b st :
  (fst (register bcrypt_hash e b st) = st /\
   code (snd (register bcrypt_hash e b st)) ∈ [400; 409; 500]%Z) \/
  (exists usr eml pwd h,
     get_prop b "username" = Some usr /\ get_prop b "email" = Some eml /\
     get_prop b "password" = Some pwd /\
     truthy usr = true /\ truthy eml = true /\ truthy pwd = true /\
     list_find (fun u => strict_eq (email u) eml = true) (users st) = None /\
     bcrypt_hash (salt e) pwd = inl h /\
     register bcrypt_hash e b st
     = ({| users := (users st ++ [mkUser (nextId st) usr eml h (now e)])%list;
           nextId := (nextId st + 1)%Z |},
        mkResponse 201 (UserBody (safeUser (mkUser (nextId st) usr eml h (now e)))))).
Proof.
  unfold register.
  destruct (register_arrives_cases b st)
    as [(r & -> & Hr)|(usr & eml & pwd & Hu & He & Hp & Tu & Te & Tp & Hf & ->)].
  - by left.
  - destruct (bcrypt_hash (salt e) pwd) as [h|msg] eqn:Hh; simpl.
    + right. exists usr, eml, pwd, h. done.
    + left. split; [done|]. set_solver.
Qed.

Lemma handle_users rq st :
  (fst (handle bcrypt_hash parseInt10 rq st) = st) \/
  (exists u, id u = nextId st /\
     Forall (fun a => strict_eq (email a) (email u) <> true) (users st) /\
     fst (handle bcrypt_hash parseInt10 rq st)
     = {| users := (users st ++ [u])%list; nextId := (nextId st + 1)%Z |}).
Proof.
  destruct rq as [e b|p|]; simpl.
  - destruct (register_cases e b st)
      as [[-> _]|(usr & eml & pwd & h & _ & _ & _ & _ & _ & _ & Hf & _ & ->)]; [by left|].
    right. exists (mkUser (nextId st) usr eml h (now e)).
    split_and!; [done| |done]. by apply list_find_None in Hf.
  - left. unfold get_user. destruct (parseInt10 p); [|done].
    by destruct (list_find _ (users st)) as [[]|].
  - by left.
Qed.

Lemma handle_users_wf rq st :
  users_wf st -> users_wf (fst (handle bcrypt_hash parseInt10 rq st)).
Proof.
  intros (Hlt & Hnd & Hem).
  destruct (handle_users rq st) as [->|(u & Hid & Hnew & ->)]; [done|].
  unfold users_wf. simpl. split_and!.
  - apply Forall_app. split.
    + eapply Forall_impl; [exact Hlt|]. simpl. intros; lia.
    + constructor; [lia|done].
  - rewrite fmap_app. apply NoDup_app. split_and!; [done| |apply NoDup_singleton].
    intros x Hx Hx'. apply list_elem_of_singleton in Hx'. subst x.
    apply list_elem_of_fmap in Hx as (a & Ha & Hin).
    rewrite Forall_forall in Hlt. specialize (Hlt a Hin). lia.
  - rewrite Forall_lookup in Hnew.
    intros i j a c Ha Hc Heq.
    apply lookup_app_Some in Ha as [Ha|[Hia Ha]];
      apply lookup_app_Some in Hc as [Hc|[Hjc Hc]].
    + by apply (Hem i j a c).
    + apply list_lookup_singleton_Some in Hc as [_ <-].
      exfalso. by apply (Hnew i a).
    + apply list_lookup_singleton_Some in Ha as [_ <-].
      exfalso. apply (Hnew j c); [done|]. by rewrite CartFacts.strict_eq_sym.
    + apply list_lookup_singleton_Some in Ha as [? _].
      apply list_lookup_singleton_Some in Hc as [? _]. lia.
Qed.

(** Two registrations of one email whose first pieces both run before
    either of the second pieces. *)
Lemma overlapping_registrations b1 b2 st usr1 usr2 eml pwd1 pwd2 h1 h2 now1 now2 :
  register_arrives b1 st = Suspended usr1 eml pwd1 ->
  register_arrives b2 st = Suspended usr2 eml pwd2 ->
  run_steps parseInt10
    [RegisterArrives b1; RegisterArrives b2;
     HashSettles now1 usr1 eml (inl h1); HashSettles now2 usr2 eml (inl h2)] st
  = ({| users := (users st ++ [mkUser (nextId st) usr1 eml h1 now1;
                               mkUser (nextId st + 1) usr2 eml h2 now2])%list;
        nextId := (nextId st + 1 + 1)%Z |},
     [Suspended usr1 eml pwd1; Suspended usr2 eml pwd2;
      Sent (mkResponse 201 (UserBody (mkSafe (nextId st) usr1 eml now1)));
      Sent (mkResponse 201 (UserBody (mkSafe (nextId st + 1) usr2 eml now2)))]).
Proof.
  intros H1 H2. simpl. rewrite H1, H2. unfold safeUser. simpl.
  by rewrite <- app_assoc.
Qed.

(** X17. The identifiers of the users stay pairwise distinct and below
    [nextId] however the handlers overlap. The emails stay pairwise
    distinct, in the sense of [===], as long as every registration is
    completed before the next request is handled. They do not when
    registrations overlap: of two registrations of one email whose checks
    both run before either hash has settled, both are accepted with 201
    and both users are stored, the check and the push being separated by
    the [await]. *)
Theorem users_stay_distinct :
  (forall (ss : list step) (st : state),
     ids_wf st -> ids_wf (fst (run_steps parseInt10 ss st))) /\
  (forall (rqs : list request) (st : state),
     users_wf st -> users_wf (run bcrypt_hash parseInt10 rqs st)) /\
  (forall (b1 b2 : jsval) (st : state) (usr1 usr2 eml pwd1 pwd2 : jsval)
          (h1 h2 now1 now2 : string),
     register_arrives b1 st = Suspended usr1 eml pwd1 ->
     register_arrives b2 st = Suspended usr2 eml pwd2 ->
     strict_eq eml eml = true ->
     run_steps parseInt10
       [RegisterArrives b1; RegisterArrives b2;
        HashSettles now1 usr1 eml (inl h1); HashSettles now2 usr2 eml (inl h2)] st
     = ({| users := (users st ++ [mkUser (nextId st) usr1 eml h1 now1;
                                  mkUser (nextId st + 1) usr2 eml h2 now2])%list;
           nextId := (nextId st + 1 + 1)%Z |},
        [Suspended usr1 eml pwd1; Suspended usr2 eml pwd2;
         Sent (mkResponse 201 (UserBody (mkSafe (nextId st) usr1 eml now1)));
         Sent (mkResponse 201 (UserBody (mkSafe (nextId st + 1) usr2 eml now2)))]) /\
     ~ users_wf
         (fst (run_steps parseInt10
                 [RegisterArrives b1; RegisterArrives b2;
                  HashSettles now1 usr1 eml (inl h1);
                  HashSettles now2 usr2 eml (inl h2)] st))).
Proof.
  split_and!.
  - intros ss st. apply run_steps_ids_wf.
  - intros rqs. induction rqs as [|rq rest IH]; intros st Hwf; simpl; [done|].
    apply IH. by apply handle_users_wf.
  - intros b1 b2 st usr1 usr2 eml pwd1 pwd2 h1 h2 now1 now2 H1 H2 Hrefl.
    rewrite (overlapping_registrations b1 b2 st usr1 usr2 eml pwd1 pwd2 h1 h2 now1 now2 H1 H2).
    split; [done|]. simpl. intros (_ & _ & Hem).
    specialize (Hem (length (users st)) (S (length (users st)))
                  (mkUser (nextId st) usr1 eml h1 now1)
                  (mkUser (nextId st + 1) usr2 eml h2 now2)).
    simpl in Hem.
    rewrite lookup_app_r in Hem by lia. rewrite Nat.sub_diag in Hem.
    rewrite (lookup_app_r (users st) _ (S (length (users st)))) in Hem by lia.
    replace (S (length (users st)) - length (users st))%nat with 1%nat in Hem by lia.
    specialize (Hem eq_refl eq_refl Hrefl). lia.
Qed.

(** X18. A user that has just been registered can be fetched by the
    identifier in the reply: the retrieval returns the body the
    registration replied with. *)
Theorem registered_user_is_retrievable :
  forall (e : env) (b : jsval) (st : state) (su : safe_user) (param : string),
    users_wf st ->
    snd (register bcrypt_hash e b st) = mkResponse 201 (UserBody su) ->
    parseInt10 param = Some (safe_id su) ->
    snd (get_user parseInt10 param (fst (register bcrypt_hash e b st)))
    = mkResponse 200 (UserBody su).
Proof.
  intros e b st su param (Hlt & _ & _) Hreply Hparam.
  destruct (register_cases e b st)
    as [[_ Hc]|(usr & eml & pwd & h & _ & _ & _ & _ & _ & _ & _ & _ & E)].
  - rewrite Hreply in Hc. simpl in Hc. by apply code_201_not_refused in Hc.
  - rewrite E in Hreply |- *. simpl in Hreply |- *. injection Hreply as <-.
    unfold get_user. rewrite Hparam. simpl.
    assert (list_find (fun u => id u = nextId st)
              (users st ++ [mkUser (nextId st) usr eml h (now e)])
            = Some (length (users st), mkUser (nextId st) usr eml h (now e))) as ->; [|done].
    apply list_find_Some. split_and!.
    + by rewrite lookup_app_r, Nat.sub_diag.
    + done.
    + intros j y Hj Hlt'. rewrite lookup_app_l in Hj by done.
      rewrite Forall_lookup in Hlt. specialize (Hlt j y Hj). lia.
Qed.

Lemma run_users_prefix rqs st :
  exists extra, users (run bcrypt_hash parseInt10 rqs st) = (users st ++ extra)%list.
Proof.
  revert st. induction rqs as [|rq rest IH]; intros st; simpl.
  - exists []. by rewrite app_nil_r.
  - destruct (IH (fst (handle bcrypt_hash parseInt10 rq st))) as [extra ->].
    destruct (handle_users rq st) as [->|(u & _ & _ & ->)]; simpl; [eauto|].
    exists (u :: extra). by rewrite <- app_assoc.
Qed.

(** X19. An email that has been registered stays taken: after a
    successful registration and any further requests, a registration
    with the same email (a text or another primitive value) is refused
    with 400 or 409 and leaves the state as it is. *)
Theorem registered_email_stays_taken :
  forall (rqs : list request) (e1 e2 : env) (b1 b2 : jsval) (st : state) (eml : jsval),
    code (snd (register bcrypt_hash e1 b1 st)) = 201%Z ->
    get_prop b1 "email" = Some eml ->
    get_prop b2 "email" = Some eml ->
    strict_eq eml eml = true ->
    fst (register bcrypt_hash e2 b2
           (run bcrypt_hash parseInt10 rqs (fst (register bcrypt_hash e1 b1 st))))
    = run bcrypt_hash parseInt10 rqs (fst (register bcrypt_hash e1 b1 st)) /\
    code (snd (register bcrypt_hash e2 b2
                 (run bcrypt_hash parseInt10 rqs (fst (register bcrypt_hash e1 b1 st)))))
    ∈ [400; 409]%Z.
Proof.
  intros rqs e1 e2 b1 b2 st eml Hc H1 H2 Hrefl.
  destruct (register_cases e1 b1 st)
    as [[_ Hc']|(usr & eml' & pwd & h & _ & He & _ & _ & _ & _ & _ & _ & E)].
  { rewrite Hc in Hc'. by apply code_201_not_refused in Hc'. }
  assert (eml' = eml) as -> by congruence.
  rewrite E. simpl.
  set (st1 := {| users := _; nextId := _ |}).
  destruct (run_users_prefix rqs st1) as [extra Hx].
  set (st2 := run bcrypt_hash parseInt10 rqs st1) in *.
  assert (exists i u, list_find (fun u => strict_eq (email u) eml = true) (users st2)
                      = Some (i, u)) as (i & u & Hf).
  { destruct (list_find _ (users st2)) as [[i u]|] eqn:Hf; [eauto|]. exfalso.
    apply list_find_None in Hf. rewrite Hx in Hf. unfold st1 in Hf. simpl in Hf.
    rewrite !Forall_app in Hf. destruct Hf as [[_ Hf] _].
    inversion Hf; subst. simpl in *. done. }
  unfold register, register_arrives, register_checks, prop.
  destruct (get_prop b2 "username") as [usr2|] eqn:Hu2; cbn [bind].
  2:{ destruct b2; simpl in *; done. }
  rewrite H2. cbn [bind].
  destruct (get_prop b2 "password") as [pwd2|] eqn:Hp2; cbn [bind].
  2:{ destruct b2; simpl in *; done. }
  destruct (truthy usr2 && truthy eml && truthy pwd2); simpl.
  - rewrite Hf. simpl. split; [done|set_solver].
  - split; [done|set_solver].
Qed.

End Hash.

End Steps.

(** The state the service starts in. *)
Lemma initial_state_wf : users_wf {| users := []; nextId := 1 |}.
Proof.
  unfold users_wf. simpl. split_and!; [apply Forall_nil_2|apply NoDup_nil_2|].
  intros i j a b Ha. done.
Qed.

(** The statement for X17 applied to two overlapping registrations of one
    email on the initial state: both are stored. *)
Lemma users_stay_distinct_witness :
  register_arrives (credentials "bob@example.com" "secret") {| users := []; nextId := 1 |}
  = Suspended (JStr "bob") (JStr "bob@example.com") (JStr "secret") /\
  register_arrives (credentials "bob@example.com" "other") {| users := []; nextId := 1 |}
  = Suspended (JStr "bob") (JStr "bob@example.com") (JStr "other") /\
  email <$> users
    (fst (run_steps Examples.demo_parseInt
            [RegisterArrives (credentials "bob@example.com" "secret");
             RegisterArrives (credentials "bob@example.com" "other");
             HashSettles "2024-01-01T00:00:01.000Z" (JStr "bob") (JStr "bob@example.com")
               (inl "$2a$10$first");
             HashSettles "2024-01-01T00:00:02.000Z" (JStr "bob") (JStr "bob@example.com")
               (inl "$2a$10$second")]
            {| users := []; nextId := 1 |}))
  = [JStr "bob@example.com"; JStr "bob@example.com"].
Proof.
  split; [reflexivity|]. split; [reflexivity|].
  rewrite (proj1 (proj2 (proj2 (users_stay_distinct Examples.demo_parseInt
                                   Examples.demo_hash))
                    (credentials "bob@example.com" "secret")
                    (credentials "bob@example.com" "other")
                    {| users := []; nextId := 1 |}
                    (JStr "bob") (JStr "bob") (JStr "bob@example.com")
                    (JStr "secret") (JStr "other")
                    "$2a$10$first" "$2a$10$second"
                    "2024-01-01T00:00:01.000Z" "2024-01-01T00:00:02.000Z"
                    eq_refl eq_refl eq_refl)).
  reflexivity.
Defined.

(** The statement for X18 applied to the first registration. *)
Lemma registered_user_is_retrievable_witness :
  users_wf {| users := []; nextId := 1 |} /\
  snd (register Examples.demo_hash (mkEnv "salt-1" "2024-01-01T00:00:00.000Z")
         (credentials "bob@example.com" "secret") {| users := []; nextId := 1 |})
  = mkResponse 201
      (UserBody (mkSafe 1 (JStr "bob") (JStr "bob@example.com") "2024-01-01T00:00:00.000Z")) /\
  Examples.demo_parseInt "1" = Some 1%Z /\
  snd (get_user Examples.demo_parseInt "1"
         (fst (register Examples.demo_hash (mkEnv "salt-1" "2024-01-01T00:00:00.000Z")
                 (credentials "bob@example.com" "secret") {| users := []; nextId := 1 |})))
  = mkResponse 200
      (UserBody (mkSafe 1 (JStr "bob") (JStr "bob@example.com") "2024-01-01T00:00:00.000Z")).
Proof.
  split; [exact initial_state_wf|]. split; [reflexivity|]. split; [reflexivity|].
  exact (registered_user_is_retrievable Examples.demo_parseInt Examples.demo_hash
           (mkEnv "salt-1" "2024-01-01T00:00:00.000Z") (credentials "bob@example.com" "secret")
           {| users := []; nextId := 1 |} _ "1" initial_state_wf eq_refl eq_refl).
Defined.

(** The statement for X19 applied to two registrations of one email with
    a listing in between. *)
Lemma registered_email_stays_taken_witness :
  code (snd (register Examples.demo_hash (mkEnv "salt-1" "2024-01-01T00:00:00.000Z")
               (credentials "bob@example.com" "secret") {| users := []; nextId := 1 |}))
  = 201%Z /\
  strict_eq (JStr "bob@example.com") (JStr "bob@example.com") = true /\
  code (snd (register Examples.demo_hash (mkEnv "salt-2" "2024-01-01T00:00:01.000Z")
               (credentials "bob@example.com" "other")
               (run Examples.demo_hash Examples.demo_parseInt [ListUsers]
                  (fst (register Examples.demo_hash
                          (mkEnv "salt-1" "2024-01-01T00:00:00.000Z")
                          (credentials "bob@example.com" "secret")
                          {| users := []; nextId := 1 |})))))
  ∈ [400; 409]%Z.
Proof.
  split; [reflexivity|]. split; [reflexivity|].
  exact (proj2 (registered_email_stays_taken Examples.demo_parseInt Examples.demo_hash
                  [ListUsers] (mkEnv "salt-1" "2024-01-01T00:00:00.000Z")
                  (mkEnv "salt-2" "2024-01-01T00:00:01.000Z")
                  (credentials "bob@example.com" "secret")
                  (credentials "bob@example.com" "other")
                  {| users := []; nextId := 1 |} (JStr "bob@example.com")
                  eq_refl eq_refl eq_refl eq_refl)).
Defined.

(** The statement for X20 applied to the first registration on the
    initial state, a listing running before the login. *)
Lemma login_after_registration_witness :
  list_find (fun u => strict_eq (email u) (JStr "bob@example.com") = true)
    (users {| users := []; nextId := 1 |}) = None /\
  strict_eq (JStr "bob@example.com") (JStr "bob@example.com") = true /\
  plain_compare (JStr "secret") "secret" = inl true /\
  UserLogin.login plain_compare demo_sign "2024-01-01T00:00:05.000Z"
    (credentials "bob@example.com" "secret")
    (fst (run_steps Examples.demo_parseInt [ListUsersArrives]
            (fst (register_resumes "2024-01-01T00:00:00.000Z" (JStr "bob")
                    (JStr "bob@example.com") (inl "secret")
                    {| users := []; nextId := 1 |}))))
  = UserLogin.mkResponse 200
      (UserLogin.TokenBody
         (demo_sign "2024-01-01T00:00:05.000Z" 1 (JStr "bob@example.com")) 1).
Proof.
  split; [reflexivity|]. split; [reflexivity|]. split; [reflexivity|].
  exact (login_after_registration Examples.demo_parseInt plain_compare demo_sign
           "2024-01-01T00:00:00.000Z" "2024-01-01T00:00:05.000Z"
           (JStr "bob") (JStr "bob@example.com") (JStr "secret") "secret"
           [ListUsersArrives] (credentials "bob@example.com" "secret")
           {| users := []; nextId := 1 |}
           eq_refl eq_refl eq_refl eq_refl eq_refl eq_refl eq_refl).
Defined.

End UserMoreFacts.

(** * Properties of the cart page *)

Module CartPageFacts.
Import CartPage.

Lemma max1_ge x : (1 <= max1 x)%Q.
Proof.
  unfold max1. destruct (Qle_bool 1 x) eqn:E; [by apply Qle_bool_iff|done].
Qed.


Lemma updateQuantity_ge i delta cartItems :
  Forall (fun item => (1 <= quantity item)%Q) cartItems ->
  Forall (fun item => (1 <= quantity item)%Q) (updateQuantity i delta cartItems).
Proof.
  intros H. unfold updateQuantity. apply Forall_forall. intros x Hx.
  apply list_elem_of_In, in_map_iff in Hx as (y & <- & Hy).
  destruct (Qeq_bool (id y) i); simpl.
  - apply max1_ge.
  - rewrite Forall_forall in H. apply H. by apply list_elem_of_In.
Qed.

Lemma removeItem_ge i cartItems :
  Forall (fun item => (1 <= quantity item)%Q) cartItems ->
  Forall (fun item => (1 <= quantity item)%Q) (removeItem i cartItems).
Proof.
  intros H. unfold removeItem. apply Forall_forall. intros x Hx.
  apply list_elem_of_In, filter_In in Hx as [Hx _].
  rewrite Forall_forall in H. apply H. by apply list_elem_of_In.
Qed.

(** X21. No sequence of clicks brings a quantity below 1: if every item
    of the cart has a quantity of at least 1, as in the cart the page
    starts with, so has every item after any plus, minus and remove
    clicks; and the plus and minus buttons never add, drop or reorder
    items nor change an identifier, a name or a price. *)
Theorem quantities_stay_positive :
  forall (cs : list click) (cartItems : list CartItem),
    Forall (fun item => (1 <= quantity item)%Q) cartItems ->
    Forall (fun item => (1 <= quantity item)%Q) (clicks cs cartItems) /\
    (forall i delta,
       Forall2 (fun a b => id b = id a /\ name b = name a /\ price b = price a)
         cartItems (updateQuantity i delta cartItems)).
Proof.
  intros cs cartItems H. split.
  - revert cartItems H. unfold clicks.
    induction cs as [|c rest IH]; intros cartItems H; simpl; [done|].
    apply IH. destruct c; simpl.
    + by apply updateQuantity_ge.
    + by apply updateQuantity_ge.
    + by apply removeItem_ge.
  - intros i delta. unfold updateQuantity. clear H.
    induction cartItems as [|x rest IH]; simpl; constructor; [|done].
    by destruct (Qeq_bool (id x) i).
Qed.

(** The statement for X21 applied to the cart the page starts with and
    two minus clicks on the first item. *)
Lemma quantities_stay_positive_witness :
  Forall (fun item => (1 <= quantity item)%Q) initial_cart /\
  Forall (fun item => (1 <= quantity item)%Q) (clicks [Minus 1; Minus 1] initial_cart).
Proof.
  assert (Forall (fun item => (1 <= quantity item)%Q) initial_cart) as H.
  { repeat (apply Forall_cons; split; [by vm_compute|]). apply Forall_nil_2. }
  split; [exact H|].
  exact (proj1 (quantities_stay_positive [Minus 1; Minus 1] initial_cart H)).
Defined.

Lemma removeItem_none i cartItems :
  Forall (fun item => Qeq_bool (id item) i = false) (removeItem i cartItems).
Proof.
  unfold removeItem. apply Forall_forall. intros x Hx.
  apply list_elem_of_In, filter_In in Hx as [_ Hx]. by apply negb_true_iff.
Qed.

Lemma updateQuantity_absent i delta cartItems :
  Forall (fun item => Qeq_bool (id item) i = false) cartItems ->
  updateQuantity i delta cartItems = cartItems.
Proof.
  unfold updateQuantity. induction 1 as [|x rest Hx H IH]; simpl; [done|].
  by rewrite Hx, IH.
Qed.

(** X22. The remove button takes out every item with the identifier and
    nothing else: no item with it is left, every other item is kept, in
    the order it had; removing again changes nothing, and the plus and
    minus buttons have no effect on an identifier that was removed. *)
Theorem removeItem_removes_exactly :
  forall (i : Q) (cartItems : list CartItem),
    Forall (fun item => Qeq_bool (id item) i = false) (removeItem i cartItems) /\
    (forall item, Qeq_bool (id item) i = false ->
       (item ∈ removeItem i cartItems <-> item ∈ cartItems)) /\
    sublist (removeItem i cartItems) cartItems /\
    removeItem i (removeItem i cartItems) = removeItem i cartItems /\
    (forall delta,
       updateQuantity i delta (removeItem i cartItems) = removeItem i cartItems).
Proof.
  intros i cartItems. split_and!.
  - apply removeItem_none.
  - intros item Hne. unfold removeItem. rewrite !list_elem_of_In, filter_In.
    rewrite Hne. simpl. tauto.
  - unfold removeItem. induction cartItems as [|x rest IH]; simpl; [done|].
    destruct (negb (Qeq_bool (id x) i)); [by apply sublist_skip|by apply sublist_cons].
  - unfold removeItem. induction cartItems as [|x rest IH]; simpl; [done|].
    destruct (negb (Qeq_bool (id x) i)) eqn:E; simpl; [|done]. by rewrite E, IH.
  - intros delta. apply updateQuantity_absent, removeItem_none.
Qed.

Lemma subtotal_acc cartItems acc :
  (fold_left (fun sum item => sum + price item * quantity item) cartItems acc
   == acc + subtotal cartItems)%Q.
Proof.
  unfold subtotal. revert acc. induction cartItems as [|x rest IH]; intros acc; simpl.
  - ring.
  - rewrite IH. rewrite (IH (0 + price x * quantity x)%Q). ring.
Qed.

Lemma subtotal_cons x rest :
  (subtotal (x :: rest) == price x * quantity x + subtotal rest)%Q.
Proof. unfold subtotal at 1. simpl. rewrite subtotal_acc. ring. Qed.



Lemma total_free cartItems :
  (100 < subtotal cartItems)%Q ->
  shipping cartItems = 0%Q /\ (total cartItems == subtotal cartItems)%Q.
Proof.
  intros H. unfold total, shipping.
  apply OrderMoreFacts.Qltb_true in H. rewrite H. split; [done|ring].
Qed.

(** Every item of the cart costs at least 199.99 a piece and has a
    quantity of at least 1. *)
Lemma dear_items_clicks cs cartItems :
  Forall (fun item => (19999 # 100 <= price item)%Q /\ (1 <= quantity item)%Q) cartItems ->
  Forall (fun item => (19999 # 100 <= price item)%Q /\ (1 <= quantity item)%Q)
    (clicks cs cartItems).
Proof.
  revert cartItems. unfold clicks.
  induction cs as [|c rest IH]; intros cartItems H; simpl; [done|].
  apply IH. apply Forall_forall. intros x Hx. rewrite Forall_forall in H.
  destruct c as [i|i|i]; simpl in Hx.
  - apply list_elem_of_In, in_map_iff in Hx as (y & <- & Hy).
    apply list_elem_of_In, H in Hy as [Hp Hq].
    destruct (Qeq_bool (id y) i); simpl; [|done]. split; [done|apply max1_ge].
  - apply list_elem_of_In, in_map_iff in Hx as (y & <- & Hy).
    apply list_elem_of_In, H in Hy as [Hp Hq].
    destruct (Qeq_bool (id y) i); simpl; [|done]. split; [done|apply max1_ge].
  - apply list_elem_of_In, filter_In in Hx as [Hx _]. apply H. by apply list_elem_of_In.
Qed.

Lemma subtotal_nonneg cartItems :
  Forall (fun item => (19999 # 100 <= price item)%Q /\ (1 <= quantity item)%Q) cartItems ->
  (0 <= subtotal cartItems)%Q.
Proof.
  induction 1 as [|x rest [Hp Hq] H IH]; [done|].
  rewrite subtotal_cons.
  replace 0%Q with (0 + 0)%Q by reflexivity. apply Qplus_le_compat; [|done].
  apply Qmult_le_0_compat.
  - apply Qle_trans with (19999 # 100)%Q; done.
  - apply Qle_trans with 1%Q; done.
Qed.

(** X24. The page never charges for shipping. Whatever plus, minus and
    remove buttons are clicked on the cart the page starts with, the cart
    is empty, and the page shows the empty-cart message instead of the
    summary, or its subtotal is above 100, shipping is 0 and the total is
    the subtotal: every item costs at least 199.99 and no quantity goes
    below 1. The 9.99 of [shipping] is never displayed. *)
Theorem page_never_charges_shipping :
  forall (cs : list click),
    clicks cs initial_cart = [] \/
    ((100 < subtotal (clicks cs initial_cart))%Q /\
     shipping (clicks cs initial_cart) = 0%Q /\
     (total (clicks cs initial_cart) == subtotal (clicks cs initial_cart))%Q).
Proof.
  intros cs.
  assert (Forall (fun item => (19999 # 100 <= price item)%Q /\ (1 <= quantity item)%Q)
            initial_cart) as Hinit.
  { repeat (apply Forall_cons; split; [by vm_compute|]). apply Forall_nil_2. }
  pose proof (dear_items_clicks cs initial_cart Hinit) as H.
  destruct (clicks cs initial_cart) as [|x rest]; [by left|]. right.
  assert (100 < subtotal (x :: rest))%Q as Hsub.
  { inversion H as [|? ? [Hp Hq] Hrest]; subst.
    rewrite subtotal_cons.
    apply Qlt_le_trans with (19999 # 100)%Q; [done|].
    apply Qle_trans with (price x * quantity x)%Q.
    - apply Qle_trans with (price x * 1)%Q; [by rewrite Qmult_1_r|].
      rewrite !(Qmult_comm (price x)). apply Qmult_le_compat_r; [done|].
      apply Qle_trans with (19999 # 100)%Q; done.
    - rewrite <- (Qplus_0_r (price x * quantity x)) at 1.
      apply Qplus_le_compat; [apply Qle_refl|]. by apply subtotal_nonneg. }
  split; [done|]. by apply total_free.
Qed.

End CartPageFacts.
